(** * KafkaPubSub: a channel multiplexer over one Kafka topic

    Shallow embedding of [src/kafka-pubsub.ts] (class [KafkaPubSub]) and
    the properties its specification states about it.

    Conventions of the embedding.
    - The class runs on Node.  What it takes from the platform, and what
      is not in the source, is a parameter of the embedding
      ([Platform]): the numbers of JavaScript, [JSON.stringify] and
      [JSON.parse], [Buffer.from] and [Buffer.toString].  Every theorem
      about the engine holds for every platform; what a theorem needs of
      the platform is among its hypotheses.
    - A JavaScript string is a [string]; an ASCII string is the sequence
      of its characters.  A [Buffer] is a [list byte].
    - Values that travel through the engine are JSON values ([json]),
      buffers, or [undefined] ([jsval]).
    - A call that may throw returns a [completion].
    - Every observable effect (a log line, a call on the Kafka client, a
      call of a user listener) is appended to the [trace] of the state.
    - JavaScript runs one task at a time.  An API call, a [ready] event,
      a [data] event or a callback of the Kafka client is one [step] of
      the engine.  A call that reaches an [await] on a promise still
      pending is parked in [waiting] and resumed, in call order, by the
      step that settles the promise; a call whose promise has settled
      goes on within its own step.  Calls resumed together take turns:
      each runs up to its next [await], then each goes on from there.
    - A listener returns or throws; it does not call back into the
      engine while it is being dispatched to.
    - The examples are computed on one platform, [sample], whose numbers
      are the integers and whose strings are byte strings. *)

From Stdlib Require Import ZArith NArith Ascii List Lia.
From Stdlib Require String Strings.Byte.
From Stdlib Require Import Decimal DecimalString DecimalN DecimalFacts.
From stdpp Require Import base option gmap strings list.

#[local] Set Warnings "-register-all".
#[local] Arguments String.append !s1 s2 : simpl nomatch.
Local Open Scope Z_scope.

(* ===================================================================== *)
(** * Part I.  The platform                                               *)
(* ===================================================================== *)

(** JSON values over the numbers of the platform.  An object is the list
    of its own properties in enumeration order. *)
Inductive json (number : Type) : Type :=
| JNull
| JBool (b : bool)
| JNum (n : number)
| JStr (s : string)
| JArr (items : list (json number))
| JObj (fields : list (string * json number)).
Arguments JNull {number}.
Arguments JBool {number} b.
Arguments JNum {number} n.
Arguments JStr {number} s.
Arguments JArr {number} items.
Arguments JObj {number} fields.

(** Induction on JSON values, through arrays and objects. *)
Section json_induction.
Context {number : Type}.
Variable Q : json number -> Prop.
Hypothesis Hnull : Q JNull.
Hypothesis Hbool : forall b, Q (JBool b).
Hypothesis Hnum : forall n, Q (JNum n).
Hypothesis Hstr : forall s, Q (JStr s).
Hypothesis Harr : forall items, Forall Q items -> Q (JArr items).
Hypothesis Hobj :
  forall fields, Forall (fun kv => Q (snd kv)) fields -> Q (JObj fields).

Fixpoint json_rect' (v : json number) : Q v :=
  match v with
  | JNull => Hnull
  | JBool b => Hbool b
  | JNum n => Hnum n
  | JStr s => Hstr s
  | JArr items =>
      Harr items
        ((fix go (l : list (json number)) : Forall Q l :=
            match l with
            | [] => Forall_nil_2 Q
            | x :: r => Forall_cons_2 Q x r (json_rect' x) (go r)
            end) items)
  | JObj fields =>
      Hobj fields
        ((fix go (l : list (string * json number))
            : Forall (fun kv => Q (snd kv)) l :=
            match l with
            | [] => Forall_nil_2 _
            | kv :: r => Forall_cons_2 _ kv r (json_rect' (snd kv)) (go r)
            end) fields)
  end.
End json_induction.

Abbreviation Buffer := (list Byte.byte).

(** What the class takes from Node.
    - [number]: the numbers; [number_truthy n] is whether [n] counts as
      true in a condition, [number_toString n] is [String(n)].
    - [JSON_stringify], [JSON_parse]: the two functions of [JSON];
      [None] stands for the [SyntaxError] that [JSON.parse] throws.
    - [Buffer_from s] is [Buffer.from(s)], [Buffer_toString b] is
      [b.toString()]. *)
Class Platform : Type := {
  number : Type;
  number_truthy : number -> bool;
  number_toString : number -> string;
  JSON_stringify : json number -> string;
  JSON_parse : string -> option (json number);
  Buffer_from : string -> Buffer;
  Buffer_toString : Buffer -> string
}.

(** A message header: an object from header names to bytes. *)
Abbreviation header := (list (string * Buffer)).

(* ===================================================================== *)
(** * Part II.  JavaScript values, exceptions, promises                   *)
(* ===================================================================== *)

(** Thrown values and rejection reasons. *)
Inductive exn : Type :=
| TypeError
| SyntaxError
| UnhandledErrorEvent
| ErrString (s : string)
| KafkaError (msg : string)
| UserThrown (tag : string).

Inductive completion (A : Type) : Type :=
| Normal (a : A)
| Throw (e : exn).
Arguments Normal {A} a.
Arguments Throw {A} e.

(** The state of a promise. *)
Inductive promise : Type :=
| Pending
| Fulfilled
| Rejected (reason : exn).

Definition is_pending (p : promise) : bool :=
  match p with Pending => true | _ => false end.

Fixpoint assoc {A : Type} (k : string) (l : list (string * A)) : option A :=
  match l with
  | [] => None
  | (k', v) :: r => if String.eqb k k' then Some v else assoc k r
  end.

Section Engine.
Context {node : Platform}.

(** What a listener can be handed. *)
Inductive jsval : Type :=
| VUndefined
| VBuffer (b : Buffer)
| VJson (j : json number).

(** [String(v)] of a parsed value.  An array is the join of its
    elements, a [null] element being the empty string.  An object is
    [[object Object]] unless it has a property [toString] of its own:
    no value that comes out of [JSON.parse] is a function, so the
    conversion then raises a [TypeError]. *)
Fixpoint to_str (v : json number) : completion string :=
  match v with
  | JNull => Normal "null"
  | JBool true => Normal "true"
  | JBool false => Normal "false"
  | JNum n => Normal (number_toString n)
  | JStr s => Normal s
  | JArr items =>
      let fix join (l : list (json number)) : completion string :=
        match l with
        | [] => Normal ""
        | x :: r =>
            match match x with JNull => Normal "" | _ => to_str x end with
            | Throw e => Throw e
            | Normal a =>
                match r with
                | [] => Normal a
                | _ :: _ =>
                    match join r with
                    | Throw e => Throw e
                    | Normal b => Normal (a +:+ String "," b)
                    end
                end
            end
        end in
      join items
  | JObj fields =>
      match assoc "toString" fields with
      | Some _ => Throw TypeError
      | None => Normal "[object Object]"
      end
  end.

(** [v.toString()]: a [TypeError] on [null] and [undefined]. *)
Definition js_toString (v : jsval) : completion string :=
  match v with
  | VUndefined => Throw TypeError
  | VBuffer b => Normal (Buffer_toString b)
  | VJson JNull => Throw TypeError
  | VJson j => to_str j
  end.

(** The property key a value that is not a string denotes. *)
Definition to_property_key (v : jsval) : completion string :=
  match v with
  | VUndefined => Normal "undefined"
  | VBuffer b => Normal (Buffer_toString b)
  | VJson j => to_str j
  end.

Definition truthy (v : jsval) : bool :=
  match v with
  | VUndefined => false
  | VBuffer _ => true
  | VJson JNull => false
  | VJson (JBool b) => b
  | VJson (JNum n) => number_truthy n
  | VJson (JStr s) => negb (String.eqb s "")
  | VJson (JArr _) => true
  | VJson (JObj _) => true
  end.

(** The own property [k] of a parsed value, if it has one. *)
Definition field (k : string) (v : json number) : option (json number) :=
  match v with
  | JObj fields => assoc k fields
  | _ => None
  end.

(** [v.k] for a property name [k] that is not built in ([channel],
    [payload]): a [TypeError] on [null], [undefined] where there is no
    such property. *)
Definition get_prop (v : json number) (k : string) : completion jsval :=
  match v with
  | JNull => Throw TypeError
  | _ => Normal (match field k v with Some x => VJson x | None => VUndefined end)
  end.

(* ===================================================================== *)
(** * Part III.  The engine                                               *)
(* ===================================================================== *)

(** [IKafkaOptions].  A port that is not given is the empty string.
    [globalConfig] and [topicConfig] are passed through to the Kafka
    client untouched; the logger, which has every level ([createConsumer]
    calls [debug] without asking), only writes: they are left out. *)
Record IKafkaOptions : Type := {
  topic : string;
  host : string;
  port : string;
  groupId : option string;
  useHeaders : bool;
  keyFun : option (json number -> Buffer)
}.

Inductive side : Type := ProducerSide | ConsumerSide.

Inductive level : Type := LDebug | LInfo | LWarn | LError.

(** The arguments of [producer.produce]. *)
Record produced : Type := {
  p_topic : string;
  p_partition : option Z;
  p_value : Buffer;
  p_key : option Buffer;
  p_timestamp : Z;
  p_headers : option (list header)
}.

(** What the consumer's [data] event carries ([Kafka.Message]). *)
Record message : Type := {
  value : option Buffer;
  headers : option (list header);
  key : option Buffer;
  timestamp : Z
}.


(** A user's [onMessage]: a name to tell the calls apart in the trace,
    and whether it returns or throws on an argument. *)
Record callback : Type := {
  cb_name : string;
  cb_run : jsval -> completion unit
}.

(** An [internalMessage] closure of [subscribe]: its identity and the
    [onMessage] it wraps. *)
Record closure : Type := {
  fn_id : Z;
  fn_cb : callback
}.

Inductive effect : Type :=
| Log (l : level) (fmt : string) (arg : string)
| New (s : side) (group : string) (brokers : string)
| Connect (s : side)
| Disconnect (s : side)
| Subscribe (topics : list string)
| Consume
| Produce (call : Z) (m : produced)
| Called (name : string) (arg : jsval).

(** How the promise returned by an API call settled. *)
Inductive outcome : Type :=
| ResolvedVoid
| Resolved (n : Z)
| RejectedWith (e : exn).

(** A call suspended at its first [await]. *)
Inductive suspended : Type :=
| KPublish (call : Z) (channel : string) (payload : json number) (now : Z)
| KSubscribe (call : Z) (channel : string) (onMessage : callback).

(** The fields of a [KafkaPubSub] instance, then the bookkeeping of the
    embedding: the calls waiting on each connection promise, the effects
    so far, and the API calls that have settled. *)
Record KafkaPubSub : Type := {
  options : IKafkaOptions;
  producer : option promise;
  consumer : option promise;
  ee : gmap string (list closure);
  subscriptions : gmap Z (string * closure);
  subIdCounter : Z;
  waiting : side -> list suspended;
  trace : list effect;
  settled : list (Z * outcome)
}.

(** [new KafkaPubSub(options)] *)
Definition init (o : IKafkaOptions) : KafkaPubSub :=
  {| options := o; producer := None; consumer := None;
     ee := ∅; subscriptions := ∅; subIdCounter := 0;
     waiting := fun _ => []; trace := []; settled := [] |}.

Definition emits (es : list effect) (st : KafkaPubSub) : KafkaPubSub :=
  {| options := options st; producer := producer st; consumer := consumer st;
     ee := ee st; subscriptions := subscriptions st;
     subIdCounter := subIdCounter st; waiting := waiting st;
     trace := trace st ++ es; settled := settled st |}.

Definition settle (call : Z) (o : outcome) (st : KafkaPubSub) : KafkaPubSub :=
  {| options := options st; producer := producer st; consumer := consumer st;
     ee := ee st; subscriptions := subscriptions st;
     subIdCounter := subIdCounter st; waiting := waiting st;
     trace := trace st; settled := settled st ++ [(call, o)] |}.

Definition handle (s : side) (st : KafkaPubSub) : option promise :=
  match s with ProducerSide => producer st | ConsumerSide => consumer st end.

Definition set_handle (s : side) (p : promise) (st : KafkaPubSub) : KafkaPubSub :=
  {| options := options st;
     producer := match s with ProducerSide => Some p | _ => producer st end;
     consumer := match s with ConsumerSide => Some p | _ => consumer st end;
     ee := ee st; subscriptions := subscriptions st;
     subIdCounter := subIdCounter st; waiting := waiting st;
     trace := trace st; settled := settled st |}.

Definition set_waiting (s : side) (l : list suspended) (st : KafkaPubSub)
  : KafkaPubSub :=
  {| options := options st; producer := producer st; consumer := consumer st;
     ee := ee st; subscriptions := subscriptions st;
     subIdCounter := subIdCounter st;
     waiting := fun s' =>
       match s, s' with
       | ProducerSide, ProducerSide | ConsumerSide, ConsumerSide => l
       | _, _ => waiting st s'
       end;
     trace := trace st; settled := settled st |}.

(** ** The event emitter [ee] (Node's [EventEmitter]) *)

Definition same_fn (f g : closure) : bool := fn_id f =? fn_id g.

(** [ee.addListener(name, f)]: [f] goes last.  An emitter with
    listeners on its own event [newListener] first emits that event;
    what is stated of [subscribe] is stated of emitters without. *)
Definition addListener (name : string) (f : closure)
    (e : gmap string (list closure)) : gmap string (list closure) :=
  <[name := default [] (e !! name) ++ [f]]> e.

(** Without the last occurrence of [f]. *)
Fixpoint remove_last (f : closure) (l : list closure) : list closure :=
  match l with
  | [] => []
  | g :: r =>
      if existsb (same_fn f) r then g :: remove_last f r
      else if same_fn f g then r else g :: r
  end.

(** [ee.removeListener(name, f)]: a name without listeners is
    forgotten.  An emitter with listeners on its own event
    [removeListener] then emits that event; what is stated of
    [unsubscribe] beyond its registry is stated of emitters without. *)
Definition removeListener (name : string) (f : closure)
    (e : gmap string (list closure)) : gmap string (list closure) :=
  match e !! name with
  | None => e
  | Some l =>
      match remove_last f l with
      | [] => delete name e
      | l' => <[name := l']> e
      end
  end.

(** ** [serialiseMessage], [deserialiseMessage] *)

Definition serialiseMessage (m : json number) : Buffer :=
  Buffer_from (JSON_stringify m).

Definition deserialiseMessage (m : jsval) : completion (json number) :=
  match js_toString m with
  | Throw e => Throw e
  | Normal s =>
      match JSON_parse s with
      | Some v => Normal v
      | None => Throw SyntaxError
      end
  end.

(** ** [subscribe]: the [internalMessage] wrapper *)

(** Calling the user's [onMessage]. *)
Definition call_back (cb : callback) (arg : jsval)
  : list effect * completion unit :=
  ([Called (cb_name cb) arg], cb_run cb arg).

(** [internalMessage(arg)] for the closure [f] (lines 86-92). *)
Definition internalMessage (o : IKafkaOptions) (f : closure) (arg : jsval)
  : list effect * completion unit :=
  if useHeaders o then
    match deserialiseMessage arg with
    | Normal v => call_back (fn_cb f) (VJson v)
    | Throw e => ([], Throw e)
    end
  else call_back (fn_cb f) arg.

(** The listeners of one [emit], called in turn; an exception ends it. *)
Fixpoint call_all (o : IKafkaOptions) (fs : list closure) (arg : jsval)
  : list effect * completion unit :=
  match fs with
  | [] => ([], Normal tt)
  | f :: r =>
      match internalMessage o f arg with
      | (es, Throw e) => (es, Throw e)
      | (es, Normal _) =>
          let '(es', c) := call_all o r arg in (es ++ es', c)
      end
  end.

(** [this.ee.emit(name, arg)].  An [error] event nobody listens to is
    thrown by the emitter. *)
Definition emit (name : string) (arg : jsval) (st : KafkaPubSub)
  : KafkaPubSub * completion unit :=
  match ee st !! name with
  | None =>
      if String.eqb name "error" then (st, Throw UnhandledErrorEvent)
      else (st, Normal tt)
  | Some fs =>
      let '(es, c) := call_all (options st) fs arg in (emits es st, c)
  end.

(** [this.ee.emit(channel, arg)] for a channel read off a message.  A
    channel that is not a string is turned into a property key when the
    listeners are looked up, which may raise; only the string [error]
    is the error event. *)
Definition emit_on (channel : jsval) (arg : jsval) (st : KafkaPubSub)
  : KafkaPubSub * completion unit :=
  match channel with
  | VJson (JStr name) => emit name arg st
  | _ =>
      match to_property_key channel with
      | Throw e => (st, Throw e)
      | Normal name =>
          match ee st !! name with
          | Some _ => emit name arg st
          | None => (st, Normal tt)
          end
      end
  end.

(** ** Connections: [createProducer], [createConsumer], the [ready] handlers *)

(** [brokerList()] *)
Definition brokerList (o : IKafkaOptions) : string :=
  if String.eqb (port o) "" then host o
  else host o +:+ String ":" (port o).

(** [createProducer()] up to its [return]: the state after the call, and
    the connection whose promise the returned promise follows. *)
Definition createProducer (st : KafkaPubSub) : KafkaPubSub * option side :=
  match producer st with
  | None =>
      (emits [New ProducerSide "" (brokerList (options st));
              Log LInfo "Connecting producer ..." "";
              Connect ProducerSide]
         (set_handle ProducerSide Pending st),
       Some ProducerSide)
  | Some _ => (st, Some ProducerSide)
  end.

(** [createConsumer()]; [uuid] is what [uuidv4()] would return.  The
    [return Promise.all([this.consumer])] is inside the [if]: a call that
    finds the field set returns a promise that is already resolved
    ([None]). *)
Definition createConsumer (uuid : string) (st : KafkaPubSub)
  : KafkaPubSub * option side :=
  match consumer st with
  | None =>
      let generated := "kafka-pubsub-" +:+ uuid in
      let group :=
        match groupId (options st) with
        | Some g => if String.eqb g "" then generated else g
        | None => generated
        end in
      (emits [Log LDebug "Creating consumer %s" group;
              New ConsumerSide group (brokerList (options st));
              Log LInfo "Connecting consumer ..." "";
              Connect ConsumerSide]
         (set_handle ConsumerSide Pending st),
       Some ConsumerSide)
  | Some _ => (st, None)
  end.

Definition kafkaPayload (o : IKafkaOptions) (channel : string)
    (payload : json number) : json number :=
  if useHeaders o then payload
  else JObj [("channel", JStr channel); ("payload", payload)].

(** The record [publish] hands to [produce] (lines 65-71). *)
Definition publish_message (o : IKafkaOptions) (channel : string)
    (payload : json number) (now : Z) : produced :=
  {| p_topic := topic o;
     p_partition := None;
     p_value := serialiseMessage (kafkaPayload o channel payload);
     p_key := (fun f => f (kafkaPayload o channel payload)) <$> keyFun o;
     p_timestamp := now;
     p_headers :=
       if useHeaders o then Some [[("channel", Buffer_from channel)]]
       else None |}.

(** [publish] after [await this.createProducer()], up to the
    [await this.producer] in the promise it returns (lines 52-64). *)
Definition publish_resume (channel : string) (payload : json number)
    (st : KafkaPubSub) : KafkaPubSub :=
  emits [Log LDebug "Publish %s"
           (JSON_stringify (kafkaPayload (options st) channel payload))] st.

(** [publish] after that [await] (lines 64-78): the record is handed to
    [produce]. *)
Definition publish_produce (call : Z) (channel : string)
    (payload : json number) (now : Z) (st : KafkaPubSub) : KafkaPubSub :=
  emits [Produce call (publish_message (options st) channel payload now)] st.

(** [subscribe] after [await this.createConsumer()] (lines 86-96).  The
    new closure is told apart from every other by the id it is stored
    under.  The counter is a JavaScript number, which adds exactly up to
    [max_safe_count]: what is stated of the ids is stated up to there. *)
Definition subscribe_resume (call : Z) (channel : string) (onMessage : callback)
    (st : KafkaPubSub) : KafkaPubSub :=
  let f := {| fn_id := subIdCounter st + 1; fn_cb := onMessage |} in
  settle call (Resolved (subIdCounter st + 1))
    {| options := options st; producer := producer st; consumer := consumer st;
       ee := addListener channel f (ee st);
       subscriptions := <[subIdCounter st + 1 := (channel, f)]> (subscriptions st);
       subIdCounter := subIdCounter st + 1;
       waiting := waiting st; trace := trace st; settled := settled st |}.

(** A suspended call goes on when the promise it awaits has settled:
    up to its next [await], if it has one. *)
Definition resume (k : suspended) (p : promise) (st : KafkaPubSub)
  : KafkaPubSub :=
  match p with
  | Pending => st
  | Fulfilled =>
      match k with
      | KPublish call channel payload now => publish_resume channel payload st
      | KSubscribe call channel onMessage =>
          subscribe_resume call channel onMessage st
      end
  | Rejected e =>
      match k with
      | KPublish call _ _ _ | KSubscribe call _ _ => settle call (RejectedWith e) st
      end
  end.

(** What a call that has gone on does after its next [await]: a
    [publish] hands its record to [produce]. *)
Definition finish (k : suspended) (p : promise) (st : KafkaPubSub)
  : KafkaPubSub :=
  match p, k with
  | Fulfilled, KPublish call channel payload now =>
      publish_produce call channel payload now st
  | _, _ => st
  end.

(** The calls [ks] that await a promise go on when it has settled as
    [p].  Each of them, in call order, runs up to its next [await]; then
    each of them, in call order, goes on from there. *)
Definition resume_all (ks : list suspended) (p : promise) (st : KafkaPubSub)
  : KafkaPubSub :=
  fold_left (fun acc k => finish k p acc) ks
    (fold_left (fun acc k => resume k p acc) ks st).

(** [await] on what [createProducer]/[createConsumer] returned. *)
Definition await_on (w : option side) (k : suspended) (st : KafkaPubSub)
  : KafkaPubSub :=
  match w with
  | None => resume_all [k] Fulfilled st
  | Some s =>
      match handle s st with
      | Some Pending => set_waiting s (waiting st s ++ [k]) st
      | Some p => resume_all [k] p st
      | None => st
      end
  end.

(** [publish(channel, payload)]; [now] is what [Date.now()] returns. *)
Definition publish (call : Z) (channel : string) (payload : json number)
    (now : Z) (st : KafkaPubSub) : KafkaPubSub :=
  let '(st1, w) := createProducer st in
  await_on w (KPublish call channel payload now) st1.

(** [subscribe(channel, onMessage)] *)
Definition subscribe (call : Z) (channel : string) (onMessage : callback)
    (uuid : string) (st : KafkaPubSub) : KafkaPubSub :=
  let '(st1, w) :=
    createConsumer uuid (emits [Log LInfo "Subscribing to %s" channel] st) in
  await_on w (KSubscribe call channel onMessage) st1.

(** [resolve]/[reject] of a connection promise: the first one settles it
    and wakes the calls that wait on it, in the order they were made. *)
Definition settle_handle (s : side) (p : promise) (st : KafkaPubSub)
  : KafkaPubSub :=
  match handle s st with
  | Some Pending =>
      resume_all (waiting st s) p (set_waiting s [] (set_handle s p st))
  | _ => st
  end.

Definition includes (topics : list string) (t : string) : bool :=
  existsb (String.eqb t) topics.

Definition topic_not_found : exn := ErrString "Could not find requested topic %s".

(** The [ready] handlers (lines 170-181 and 245-259); [topics] are the
    names in the metadata. *)
Definition on_ready (s : side) (topics : list string) (st : KafkaPubSub)
  : KafkaPubSub :=
  let o := options st in
  let st1 :=
    emits [Log LInfo "Connected, found topics: %s" (String.concat "," topics)] st in
  if includes topics (topic o) then
    match s with
    | ProducerSide => settle_handle ProducerSide Fulfilled st1
    | ConsumerSide =>
        settle_handle ConsumerSide Fulfilled
          (emits [Log LInfo "Subscribing to %s" (topic o);
                  Subscribe [topic o]; Consume] st1)
    end
  else
    settle_handle s (Rejected topic_not_found)
      (emits [Log LError "Could not find requested topic %s" (topic o);
              Disconnect s] st1).

(** The callback of [produce]. *)
Definition on_delivery (call : Z) (err : option exn) (st : KafkaPubSub)
  : KafkaPubSub :=
  settle call (match err with
               | Some e => RejectedWith e
               | None => ResolvedVoid
               end) st.

(** ** [unsubscribe] *)

Definition unsubscribe (index : Z) (st : KafkaPubSub)
  : KafkaPubSub * completion unit :=
  match subscriptions st !! index with
  | None => (st, Throw TypeError)
  | Some (channel, onMessage) =>
      ({| options := options st; producer := producer st;
          consumer := consumer st;
          ee := removeListener channel onMessage (ee st);
          subscriptions := delete index (subscriptions st);
          subIdCounter := subIdCounter st; waiting := waiting st;
          trace := trace st ++ [Log LInfo "Unsubscribing from %s" channel];
          settled := settled st |},
       Normal tt)
  end.

(** ** The consumer's [data] handler (lines 215-239) *)

Definition has_channel (h : header) : bool :=
  existsb (String.eqb "channel") (map fst h).

(** The header branch: the value goes out as it came. *)
Definition on_data_headers (hs : list header) (v : Buffer) (st : KafkaPubSub)
  : KafkaPubSub * completion unit :=
  match find has_channel hs with
  | Some channelHeader =>
      match assoc "channel" channelHeader with
      | Some c => emit (Buffer_toString c) (VBuffer v) st
      | None => (st, Throw TypeError)
      end
  | None => (emits [Log LWarn "Missing 'channel' header" ""] st, Normal tt)
  end.

(** The envelope branch. *)
Definition on_data_envelope (v : Buffer) (st : KafkaPubSub)
  : KafkaPubSub * completion unit :=
  match deserialiseMessage (VBuffer v) with
  | Throw e => (st, Throw e)
  | Normal parsedMessage =>
      match get_prop parsedMessage "channel" with
      | Throw e => (st, Throw e)
      | Normal channel =>
          if truthy channel then
            match get_prop parsedMessage "payload" with
            | Throw e => (st, Throw e)
            | Normal payload => emit_on channel payload st
            end
          else emit (topic (options st)) (VJson parsedMessage) st
      end
  end.

Definition on_data (m : message) (st : KafkaPubSub)
  : KafkaPubSub * completion unit :=
  match value m with
  | None => (st, Throw TypeError)
  | Some v =>
      let st1 := emits [Log LDebug "Received %s" (Buffer_toString v)] st in
      match useHeaders (options st), headers m with
      | true, Some hs => on_data_headers hs v st1
      | _, _ => on_data_envelope v st1
      end
  end.

(** ** [close] *)

Definition side_eqb (a b : side) : bool :=
  match a, b with
  | ProducerSide, ProducerSide | ConsumerSide, ConsumerSide => true
  | _, _ => false
  end.

Definition is_fulfilled (p : promise) : bool :=
  match p with Fulfilled => true | _ => false end.

(** The two promises [close] builds and the [Promise.all] over them.
    For each side: whether its executor is still at [await this.producer]
    (resp. [this.consumer]), whether it has called [disconnect], and the
    state of its promise. *)
Record closing : Type := {
  awaited : side -> bool;
  attempted : side -> bool;
  disconnected : side -> promise;
  all : promise
}.

(** What the executor of one side does with the field (lines 108-118).
    Unset: nothing.  A fulfilled promise: [disconnect] is called.  A
    pending promise: the executor waits for it.  A rejected promise: the
    [await] throws inside the executor, and the promise of that side is
    left as it is. *)
Definition attempts (h : option promise) : bool :=
  match h with
  | Some Fulfilled => true
  | _ => false
  end.

Definition awaits (h : option promise) : bool :=
  match h with
  | Some Pending => true
  | _ => false
  end.

(** [close()], up to the point where it waits for the connections that
    are pending and for the callbacks of the disconnects. *)
Definition close (st : KafkaPubSub) : KafkaPubSub * closing :=
  let a := fun s => attempts (handle s st) in
  (emits ((if a ProducerSide then [Disconnect ProducerSide] else [])
          ++ (if a ConsumerSide then [Disconnect ConsumerSide] else [])) st,
   {| awaited := fun s => awaits (handle s st);
      attempted := a;
      disconnected := fun _ => Pending;
      all := Pending |}).

(** The connection promise of side [s], awaited by [close], settles as
    [p]: fulfilled, the executor goes on and calls [disconnect]. *)
Definition on_settles (s : side) (p : promise) (c : closing) : closing :=
  if awaited c s && negb (is_pending p) then
    {| awaited := fun s' => if side_eqb s s' then false else awaited c s';
       attempted :=
         fun s' => if side_eqb s s' then is_fulfilled p else attempted c s';
       disconnected := disconnected c;
       all := all c |}
  else c.

(** The callback of [disconnect] on side [s]. *)
Definition on_disconnect (s : side) (err : option exn) (c : closing) : closing :=
  if attempted c s && is_pending (disconnected c s) then
    let p := match err with Some e => Rejected e | None => Fulfilled end in
    let d := fun s' => if side_eqb s s' then p else disconnected c s' in
    {| awaited := awaited c;
       attempted := attempted c;
       disconnected := d;
       all :=
         match all c with
         | Pending =>
             match p with
             | Rejected e => Rejected e
             | _ =>
                 if is_fulfilled (d ProducerSide) && is_fulfilled (d ConsumerSide)
                 then Fulfilled else Pending
             end
         | p' => p'
         end |}
  else c.

(** What happens after [close()] was called. *)
Inductive close_event : Type :=
| Settles (s : side) (p : promise)
| Reports (s : side) (err : option exn).

Definition on_close_event (c : closing) (e : close_event) : closing :=
  match e with
  | Settles s p => on_settles s p c
  | Reports s err => on_disconnect s err c
  end.

(** [close()] followed by the events [evs], in the order they arrive. *)
Definition close_after (evs : list close_event) (st : KafkaPubSub) : closing :=
  fold_left on_close_event evs (snd (close st)).

(** ** Runs *)

Inductive event : Type :=
| CallPublish (call : Z) (channel : string) (payload : json number) (now : Z)
| CallSubscribe (call : Z) (channel : string) (onMessage : callback)
    (uuid : string)
| CallUnsubscribe (index : Z)
| Ready (s : side) (topics : list string)
| Delivery (call : Z) (err : option exn)
| Data (m : message).

Definition step (st : KafkaPubSub) (e : event) : KafkaPubSub :=
  match e with
  | CallPublish call channel payload now => publish call channel payload now st
  | CallSubscribe call channel onMessage uuid =>
      subscribe call channel onMessage uuid st
  | CallUnsubscribe index => fst (unsubscribe index st)
  | Ready s topics =>
      match handle s st with
      | Some _ => on_ready s topics st
      | None => st
      end
  | Delivery call err => on_delivery call err st
  | Data m => fst (on_data m st)
  end.

Definition run (es : list event) (st : KafkaPubSub) : KafkaPubSub :=
  fold_left step es st.

Definition is_new (s : side) (e : effect) : bool :=
  match e with
  | New s' _ _ => side_eqb s s'
  | _ => false
  end.

Fixpoint count_new (s : side) (t : list effect) : nat :=
  match t with
  | [] => 0
  | e :: r => ((if is_new s e then 1 else 0) + count_new s r)%nat
  end.

(** How many clients of side [s] have been created. *)
Definition created (s : side) (st : KafkaPubSub) : nat :=
  count_new s (trace st).

(** Whether the field of side [s] holds a promise. *)
Definition started (s : side) (st : KafkaPubSub) : bool :=
  match handle s st with Some _ => true | None => false end.

(** [st'] has the connections of [st]: the same fields set, the same
    number of clients created. *)
Definition keeps (st st' : KafkaPubSub) : Prop :=
  forall s, started s st' = started s st /\ created s st' = created s st.

(** The invariant: a client has been created exactly when the field is
    set, and then exactly one. *)
Definition one_each (st : KafkaPubSub) : Prop :=
  forall s, created s st = if started s st then 1%nat else 0%nat.

(** The arguments [name] has been called with. *)
Fixpoint calls_of (name : string) (t : list effect) : list jsval :=
  match t with
  | [] => []
  | Called n arg :: r =>
      if String.eqb n name then arg :: calls_of name r else calls_of name r
  | _ :: r => calls_of name r
  end.

(** ** Vocabulary of the statements *)


Definition returns (c : completion unit) : bool :=
  match c with Normal _ => true | Throw _ => false end.

(** The listeners registered for [name], oldest first. *)
Definition listeners (name : string) (st : KafkaPubSub) : list closure :=
  default [] (ee st !! name).

(** A value that comes back from [deserialiseMessage] as it went into
    [serialiseMessage]: that is, from
    [JSON.parse(Buffer.from(JSON.stringify(v)).toString())]. *)
Definition survives (v : json number) : Prop :=
  deserialiseMessage (VBuffer (serialiseMessage v)) = Normal v.

(** A message the data handler cannot decode: it has no value; or, in
    the header branch, no header carries [channel]; or, in the envelope
    branch, the value is not JSON text. *)
Definition undecodable (o : IKafkaOptions) (m : message) : bool :=
  match value m with
  | None => true
  | Some v =>
      match useHeaders o, headers m with
      | true, Some hs => negb (existsb has_channel hs)
      | _, _ =>
          match JSON_parse (Buffer_toString v) with
          | Some _ => false
          | None => true
          end
      end
  end.

Definition header_branch (o : IKafkaOptions) (m : message) : bool :=
  useHeaders o && match headers m with Some _ => true | None => false end.

(** The listeners one [emit] reaches: all of them up to and including the
    first whose call throws. *)
Fixpoint reached (o : IKafkaOptions) (arg : jsval) (fs : list closure)
  : list closure :=
  match fs with
  | [] => []
  | f :: r =>
      if returns (snd (internalMessage o f arg)) then f :: reached o arg r
      else [f]
  end.

(** How that [emit] completes: as the first call that throws, if any. *)
Fixpoint completes (o : IKafkaOptions) (arg : jsval) (fs : list closure)
  : completion unit :=
  match fs with
  | [] => Normal tt
  | f :: r =>
      match snd (internalMessage o f arg) with
      | Throw e => Throw e
      | Normal _ => completes o arg r
      end
  end.

(** The error of the first disconnect reported as failed. *)
Fixpoint first_error (acks : list (side * option exn)) : option exn :=
  match acks with
  | [] => None
  | (_, Some e) :: _ => Some e
  | (_, None) :: r => first_error r
  end.

Definition acked (s : side) (acks : list (side * option exn)) : bool :=
  existsb (fun a => side_eqb s (fst a)) acks.

(** What the disconnect of side [s] has reported among [acks]. *)
Definition report_of (s : side) (acks : list (side * option exn)) : promise :=
  match find (fun a => side_eqb s (fst a)) acks with
  | Some (_, None) => Fulfilled
  | Some (_, Some e) => Rejected e
  | None => Pending
  end.

(** The disconnects that have reported, in the order they did. *)
Fixpoint acks_of (evs : list close_event) : list (side * option exn) :=
  match evs with
  | [] => []
  | Reports s err :: r => (s, err) :: acks_of r
  | Settles _ _ :: r => acks_of r
  end.

(** Every event is one that [close] is waiting for when it arrives: a
    connection that settles is one it awaits, a disconnect that reports
    is one it has called and that has not reported yet. *)
Fixpoint orderly (c : closing) (evs : list close_event) : bool :=
  match evs with
  | [] => true
  | Settles s p :: r =>
      awaited c s && negb (is_pending p) && orderly (on_settles s p c) r
  | Reports s err :: r =>
      attempted c s && is_pending (disconnected c s)
      && orderly (on_disconnect s err c) r
  end.

(** The connection of side [s] becomes ready among [evs]. *)
Definition comes_up (s : side) (evs : list close_event) : bool :=
  existsb (fun e => match e with
                    | Settles s' Fulfilled => side_eqb s s'
                    | _ => false
                    end) evs.

Definition is_called (e : effect) : bool :=
  match e with Called _ _ => true | _ => false end.


(** An engine whose two connections are up. *)
Definition connected (o : IKafkaOptions) : KafkaPubSub :=
  set_handle ConsumerSide Fulfilled (set_handle ProducerSide Fulfilled (init o)).

(** ** Vocabulary of the further properties *)

(** The listeners of [l] other than [f]. *)
Definition without (f : closure) (l : list closure) : list closure :=
  List.filter (fun g => negb (same_fn f g)) l.

(** No two closures of [l] have the same identity. *)
Fixpoint distinct (l : list closure) : bool :=
  match l with
  | [] => true
  | g :: r => negb (existsb (same_fn g) r) && distinct r
  end.

(** The registry and the emitter agree: a subscription id lies between 1
    and [subIdCounter], it is the identity of the closure stored under
    it, and that closure listens on the channel stored with it; the
    listeners of a name are never an empty list, they are pairwise
    distinct, and each of them is stored in [subscriptions] under its
    identity, with that name. *)
Definition registry_ok (st : KafkaPubSub) : Prop :=
  0 <= subIdCounter st
  /\ (forall id ch f,
        subscriptions st !! id = Some (ch, f) ->
        1 <= id <= subIdCounter st /\ fn_id f = id
        /\ existsb (same_fn f) (listeners ch st) = true)
  /\ (forall name fs,
        ee st !! name = Some fs ->
        fs <> [] /\ distinct fs = true
        /\ forall g, In g fs -> subscriptions st !! fn_id g = Some (name, g)).

(** The ids that [subscribe] calls have resolved with, oldest first. *)
Fixpoint resolved_ids (l : list (Z * outcome)) : list Z :=
  match l with
  | [] => []
  | (_, Resolved n) :: r => n :: resolved_ids r
  | _ :: r => resolved_ids r
  end.

(** [1; 2; ...; c] *)
Definition ids_upto (c : Z) : list Z := map Z.of_nat (seq 1 (Z.to_nat c)).

Definition consistent (st : KafkaPubSub) : Prop :=
  registry_ok st /\ resolved_ids (settled st) = ids_upto (subIdCounter st).

(** The API call that can create the client of side [s]. *)
Definition creates (s : side) (e : event) : bool :=
  match s, e with
  | ProducerSide, CallPublish _ _ _ _ => true
  | ConsumerSide, CallSubscribe _ _ _ _ => true
  | _, _ => false
  end.

(** The records handed to [produce], with the call that sent each. *)
Fixpoint produced_by (t : list effect) : list (Z * produced) :=
  match t with
  | [] => []
  | Produce call m :: r => (call, m) :: produced_by r
  | _ :: r => produced_by r
  end.

Definition call_of (k : suspended) : Z :=
  match k with
  | KPublish call _ _ _ | KSubscribe call _ _ => call
  end.

(** A [publish] call: its tag, channel, payload and clock. *)
Definition publication : Type := (Z * string * json number * Z)%type.

Definition publish_event (c : publication) : event :=
  match c with
  | (call, channel, payload, now) => CallPublish call channel payload now
  end.

(** The same call, suspended at its [await]. *)
Definition park (c : publication) : suspended :=
  match c with
  | (call, channel, payload, now) => KPublish call channel payload now
  end.

(** What a parked [publish] does once the producer is there: first
    its log line, later its call of [produce]. *)
Definition announces (o : IKafkaOptions) (c : publication) : effect :=
  match c with
  | (call, channel, payload, now) =>
      Log LDebug "Publish %s" (JSON_stringify (kafkaPayload o channel payload))
  end.

Definition hands (o : IKafkaOptions) (c : publication) : effect :=
  match c with
  | (call, channel, payload, now) =>
      Produce call (publish_message o channel payload now)
  end.

Definition sent (o : IKafkaOptions) (c : publication) : Z * produced :=
  match c with
  | (call, channel, payload, now) =>
      (call, publish_message o channel payload now)
  end.

(** The listeners [fs] handed the value [v] one after the other, until
    one of them throws. *)
Fixpoint hand_over (fs : list closure) (v : jsval)
  : list effect * completion unit :=
  match fs with
  | [] => ([], Normal tt)
  | f :: r =>
      match cb_run (fn_cb f) v with
      | Throw e => ([Called (cb_name (fn_cb f)) v], Throw e)
      | Normal _ =>
          let '(es, c) := hand_over r v in
          (Called (cb_name (fn_cb f)) v :: es, c)
      end
  end.

(** [st'] has the connection promises of [st], in the same state. *)
Definition same_handles (st st' : KafkaPubSub) : Prop :=
  forall s, handle s st' = handle s st.

(** A connection that [close] cannot disconnect: none was ever asked
    for, or its creation failed. *)
Definition unavailable (h : option promise) : bool :=
  match h with
  | None => true
  | Some (Rejected _) => true
  | _ => false
  end.

(** The two events an [EventEmitter] emits about itself, when somebody
    listens to them. *)
Definition meta_event (name : string) : bool :=
  String.eqb name "newListener" || String.eqb name "removeListener".

(** An event other than a [subscribe] to one of those two channels. *)
Definition ordinary (e : event) : bool :=
  match e with
  | CallSubscribe _ channel _ _ => negb (meta_event channel)
  | _ => true
  end.

(** The largest integer up to which a JavaScript number counts. *)
Definition max_safe_count : Z := 2 ^ 53.

End Engine.

(* ===================================================================== *)
(** * Part IV.  A platform to compute on                                  *)
(* ===================================================================== *)

(** The examples below are computed on one platform.  Its numbers are
    the integers, written in decimal; its strings are byte strings, the
    UTF-8 of a text, and a buffer holds the bytes of its string.  The
    theorems about the engine do not depend on it. *)

Module Json.

(** The values of the sample platform are JSON values over the integers,
    [json Z]. *)

Definition dquote : ascii := "034"%char.
Definition backslash : ascii := "092"%char.

Definition keys (fields : list (string * json Z)) : list string :=
  map fst fields.

Fixpoint nodupb (l : list string) : bool :=
  match l with
  | [] => true
  | k :: r => negb (existsb (String.eqb k) r) && nodupb r
  end.

(** A JavaScript object never has two properties of the same name:
    objects have pairwise distinct property names, at every depth. *)
Fixpoint wf (v : json Z) : bool :=
  match v with
  | JArr items => forallb wf items
  | JObj fields =>
      nodupb (keys fields) && forallb (fun kv => wf (snd kv)) fields
  | _ => true
  end.

(** ** Printing *)

Definition hex_digit (n : N) : ascii :=
  if (n <? 10)%N then ascii_of_N (48 + n) else ascii_of_N (87 + n).

(** The escape of one character inside a string literal, as
    [JSON.stringify] writes it: the two-character escapes where they
    exist, [\u00xx] for the other control characters. *)
Definition escape_char (c : ascii) : string :=
  let n := N_of_ascii c in
  if (n =? 34)%N then String backslash (String dquote "")
  else if (n =? 92)%N then String backslash (String backslash "")
  else if (n =? 8)%N then String backslash "b"
  else if (n =? 12)%N then String backslash "f"
  else if (n =? 10)%N then String backslash "n"
  else if (n =? 13)%N then String backslash "r"
  else if (n =? 9)%N then String backslash "t"
  else if (n <? 32)%N then
    String backslash
      (String "u" (String "0" (String "0"
         (String (hex_digit (n / 16)) (String (hex_digit (n mod 16)) "")))))
  else String c "".

Fixpoint escape (s : string) : string :=
  match s with
  | EmptyString => ""
  | String c r => escape_char c +:+ escape r
  end.

Definition quote (s : string) : string :=
  String dquote (escape s +:+ String dquote "").

Definition print_N (n : N) : string :=
  NilEmpty.string_of_uint (N.to_uint n).

Definition print_Z (n : Z) : string :=
  if n <? 0 then String "-" (print_N (Z.to_N (- n)))
  else print_N (Z.to_N n).

(** [JSON.stringify] on these values: the compact form, no white
    space. *)
Fixpoint stringify (v : json Z) : string :=
  match v with
  | JNull => "null"
  | JBool true => "true"
  | JBool false => "false"
  | JNum n => print_Z n
  | JStr s => quote s
  | JArr items =>
      let fix elems (l : list (json Z)) : string :=
        match l with
        | [] => ""
        | [x] => stringify x
        | x :: r => stringify x +:+ String "," (elems r)
        end in
      String "[" (elems items +:+ "]")
  | JObj fields =>
      let fix members (l : list (string * json Z)) : string :=
        match l with
        | [] => ""
        | [(k, x)] => quote k +:+ String ":" (stringify x)
        | (k, x) :: r =>
            quote k +:+ String ":" (stringify x +:+ String "," (members r))
        end in
      String "{" (members fields +:+ "}")
  end.

(** ** Parsing *)

Definition is_ws (c : ascii) : bool :=
  let n := N_of_ascii c in
  (n =? 32)%N || (n =? 9)%N || (n =? 10)%N || (n =? 13)%N.

Fixpoint skip_ws (s : string) : string :=
  match s with
  | String c r => if is_ws c then skip_ws r else s
  | EmptyString => s
  end.

Definition digit_of (c : ascii) : option (uint -> uint) :=
  match N_of_ascii c with
  | 48%N => Some D0 | 49%N => Some D1 | 50%N => Some D2 | 51%N => Some D3
  | 52%N => Some D4 | 53%N => Some D5 | 54%N => Some D6 | 55%N => Some D7
  | 56%N => Some D8 | 57%N => Some D9
  | _ => None
  end.

(** The longest prefix of decimal digits, and what follows it. *)
Fixpoint read_digits (s : string) : uint * string :=
  match s with
  | String c r =>
      match digit_of c with
      | Some d => let '(u, r') := read_digits r in (d u, r')
      | None => (Nil, s)
      end
  | EmptyString => (Nil, s)
  end.

Definition starts_fraction (s : string) : bool :=
  match s with
  | String c _ =>
      let n := N_of_ascii c in (n =? 46)%N || (n =? 101)%N || (n =? 69)%N
  | EmptyString => false
  end.

(** An unsigned integer literal: no empty literal, no leading zero.
    A literal that goes on with a fraction or an exponent denotes a
    number that is not an integer: the sample platform has no value for
    it and does not accept it. *)
Definition parse_nat (s : string) : option (N * string) :=
  let '(u, r) := read_digits s in
  match u with
  | Nil => None
  | D0 (D0 _ | D1 _ | D2 _ | D3 _ | D4 _ | D5 _ | D6 _ | D7 _ | D8 _ | D9 _) =>
      None
  | _ => if starts_fraction r then None else Some (N.of_uint u, r)
  end.

Definition hex_value (c : ascii) : option N :=
  let n := N_of_ascii c in
  if (48 <=? n)%N && (n <=? 57)%N then Some (n - 48)%N
  else if (97 <=? n)%N && (n <=? 102)%N then Some (n - 87)%N
  else if (65 <=? n)%N && (n <=? 70)%N then Some (n - 55)%N
  else None.

(** The UTF-8 bytes of a code unit below [0x10000]. *)
Definition utf8 (cp : N) : string :=
  if (cp <? 128)%N then String (ascii_of_N cp) ""
  else if (cp <? 2048)%N then
    String (ascii_of_N (192 + cp / 64))
      (String (ascii_of_N (128 + cp mod 64)) "")
  else
    String (ascii_of_N (224 + cp / 4096))
      (String (ascii_of_N (128 + (cp / 64) mod 64))
         (String (ascii_of_N (128 + cp mod 64)) "")).

Definition hex4 (a b c d : ascii) : option N :=
  match hex_value a, hex_value b, hex_value c, hex_value d with
  | Some x, Some y, Some z, Some w =>
      Some (((x * 16 + y) * 16 + z) * 16 + w)%N
  | _, _, _, _ => None
  end.

Definition prepend (p : string) (r : option (string * string))
  : option (string * string) :=
  match r with
  | Some (s, rest) => Some (p +:+ s, rest)
  | None => None
  end.

(** The character a two-character escape stands for. *)
Definition unescape (e : ascii) : option string :=
  match N_of_ascii e with
  | 34%N => Some (String dquote "")
  | 92%N => Some (String backslash "")
  | 47%N => Some "/"
  | 98%N => Some (String (ascii_of_N 8) "")
  | 102%N => Some (String (ascii_of_N 12) "")
  | 110%N => Some (String (ascii_of_N 10) "")
  | 114%N => Some (String (ascii_of_N 13) "")
  | 116%N => Some (String (ascii_of_N 9) "")
  | _ => None
  end.

(** The characters of a string literal after its opening quote, up to
    and including the closing quote. *)
Fixpoint parse_chars (s : string) : option (string * string) :=
  match s with
  | EmptyString => None
  | String c r =>
      let n := N_of_ascii c in
      if (n =? 34)%N then Some ("", r)
      else if (n =? 92)%N then
        match r with
        | String e r' =>
            match unescape e with
            | Some p => prepend p (parse_chars r')
            | None =>
                if (N_of_ascii e =? 117)%N then
                  match r' with
                  | String h1 (String h2 (String h3 (String h4 r''))) =>
                      match hex4 h1 h2 h3 h4 with
                      | Some cp => prepend (utf8 cp) (parse_chars r'')
                      | None => None
                      end
                  | _ => None
                  end
                else None
            end
        | EmptyString => None
        end
      else if (n <? 32)%N then None
      else prepend (String c "") (parse_chars r)
  end.

(** The text after the literal [lit], when the text starts with it. *)
Fixpoint expect (lit : string) (s : string) : option string :=
  match lit with
  | EmptyString => Some s
  | String a lit' =>
      match s with
      | String b r => if Ascii.eqb a b then expect lit' r else None
      | EmptyString => None
      end
  end.

(** [obj[k] = v]: an existing property keeps its place. *)
Fixpoint obj_set (k : string) (v : json Z) (fields : list (string * json Z))
  : list (string * json Z) :=
  match fields with
  | [] => [(k, v)]
  | (k', v') :: r =>
      if String.eqb k k' then (k, v) :: r else (k', v') :: obj_set k v r
  end.

(** What the first character of a value announces. *)
Inductive token : Type :=
| TNull | TTrue | TFalse | TString | TMinus | TArray | TObject | TDigit
| TOther.

Definition token_of (c : ascii) : token :=
  match N_of_ascii c with
  | 110%N => TNull
  | 116%N => TTrue
  | 102%N => TFalse
  | 34%N => TString
  | 45%N => TMinus
  | 91%N => TArray
  | 123%N => TObject
  | _ => match digit_of c with Some _ => TDigit | None => TOther end
  end.

Fixpoint parse_value (fuel : nat) (s : string) {struct fuel}
  : option (json Z * string) :=
  match fuel with
  | O => None
  | S fuel' =>
      match skip_ws s with
      | EmptyString => None
      | String c r =>
          match token_of c with
          | TNull => r' ← expect "ull" r; Some (JNull, r')
          | TTrue => r' ← expect "rue" r; Some (JBool true, r')
          | TFalse => r' ← expect "alse" r; Some (JBool false, r')
          | TString => '(str, r') ← parse_chars r; Some (JStr str, r')
          | TMinus => '(n, r') ← parse_nat r; Some (JNum (- Z.of_N n), r')
          | TArray =>
              match skip_ws r with
              | String c' r' =>
                  if (N_of_ascii c' =? 93)%N then Some (JArr [], r')
                  else '(items, r'') ← parse_elems fuel' (skip_ws r) [];
                       Some (JArr items, r'')
              | EmptyString => None
              end
          | TObject =>
              match skip_ws r with
              | String c' r' =>
                  if (N_of_ascii c' =? 125)%N then Some (JObj [], r')
                  else '(fields, r'') ← parse_members fuel' (skip_ws r) [];
                       Some (JObj fields, r'')
              | EmptyString => None
              end
          | TDigit =>
              '(n, r') ← parse_nat (String c r); Some (JNum (Z.of_N n), r')
          | TOther => None
          end
      end
  end

with parse_elems (fuel : nat) (s : string) (acc : list (json Z)) {struct fuel}
  : option (list (json Z) * string) :=
  match fuel with
  | O => None
  | S fuel' =>
      '(v, r) ← parse_value fuel' s;
      match skip_ws r with
      | String c r' =>
          if (N_of_ascii c =? 44)%N then parse_elems fuel' r' (acc ++ [v])
          else if (N_of_ascii c =? 93)%N then Some (acc ++ [v], r')
          else None
      | EmptyString => None
      end
  end

with parse_members (fuel : nat) (s : string) (acc : list (string * json Z))
       {struct fuel} : option (list (string * json Z) * string) :=
  match fuel with
  | O => None
  | S fuel' =>
      match skip_ws s with
      | String q r0 =>
          if (N_of_ascii q =? 34)%N then
            '(k, r1) ← parse_chars r0;
            match skip_ws r1 with
            | String colon r2 =>
                if (N_of_ascii colon =? 58)%N then
                  '(v, r3) ← parse_value fuel' r2;
                  match skip_ws r3 with
                  | String c r4 =>
                      if (N_of_ascii c =? 44)%N
                      then parse_members fuel' r4 (obj_set k v acc)
                      else if (N_of_ascii c =? 125)%N
                      then Some (obj_set k v acc, r4)
                      else None
                  | EmptyString => None
                  end
                else None
            | EmptyString => None
            end
          else None
      | EmptyString => None
      end
  end.

(** [JSON.parse] on the texts of these values: one value, white space
    around it, nothing else. *)
Definition parse (s : string) : option (json Z) :=
  '(v, r) ← parse_value (S (String.length s)) s;
  match skip_ws r with
  | EmptyString => Some v
  | String _ _ => None
  end.

End Json.
Export Json.

(** Structure of the printed text, and the measure that bounds the fuel
    the parser needs on it. *)
Fixpoint print_elems (l : list (json Z)) : string :=
  match l with
  | [] => ""
  | [x] => stringify x
  | x :: r => stringify x +:+ String "," (print_elems r)
  end.

Fixpoint print_members (l : list (string * json Z)) : string :=
  match l with
  | [] => ""
  | [(k, x)] => quote k +:+ String ":" (stringify x)
  | (k, x) :: r =>
      quote k +:+ String ":" (stringify x +:+ String "," (print_members r))
  end.

Fixpoint size (v : json Z) : nat :=
  match v with
  | JArr items => S (sum_list_with (fun x => S (size x)) items)
  | JObj fields => S (sum_list_with (fun kv => S (size (snd kv))) fields)
  | _ => 1
  end.

(** What may follow a number literal: no digit, no fraction, no exponent. *)
Definition number_end (s : string) : bool :=
  match s with
  | EmptyString => true
  | String c _ =>
      match digit_of c with
      | Some _ => false
      | None => negb (starts_fraction s)
      end
  end.

(** The first character of a printed value: no white space, no closing
    bracket. *)
Definition first_ok (s : string) : bool :=
  match s with
  | String c _ =>
      negb (is_ws c) && negb (N_of_ascii c =? 93)%N
      && negb (N_of_ascii c =? 125)%N
  | EmptyString => false
  end.

Definition roundtrips (v : json Z) : Prop :=
  forall fuel rest,
    (size v <= fuel)%nat -> number_end rest = true ->
    parse_value fuel (stringify v +:+ rest) = Some (v, rest).

(** The sample platform. *)
Definition sample : Platform :=
  {| number := Z;
     number_truthy := fun n => negb (n =? 0);
     number_toString := print_Z;
     JSON_stringify := stringify;
     JSON_parse := parse;
     Buffer_from := String.list_byte_of_string;
     Buffer_toString := String.string_of_list_byte |}.

(** ** Sample engines, listeners and messages *)

Definition envelope_options : IKafkaOptions (node := sample) :=
  {| topic := "events"; host := "localhost"; port := "9092";
     groupId := None; useHeaders := false; keyFun := None |}.

Definition header_options : IKafkaOptions (node := sample) :=
  {| topic := "events"; host := "localhost"; port := "";
     groupId := Some "graphql"; useHeaders := true; keyFun := None |}.

Definition quiet : callback (node := sample) :=
  {| cb_name := "quiet"; cb_run := fun _ => Normal tt |}.

Definition faulty : callback (node := sample) :=
  {| cb_name := "faulty"; cb_run := fun _ => Throw (UserThrown "boom") |}.

Definition num (n : Z) : json (number (Platform := sample)) := JNum n.

Definition text (s : string) : json (number (Platform := sample)) := JStr s.

Definition obj (fields : list (string * json (number (Platform := sample))))
  : json (number (Platform := sample)) := JObj fields.

Definition order : json (number (Platform := sample)) := obj [("id", num 42)].

Definition null : json (number (Platform := sample)) := JNull.

(** The bytes of a text, and the text of some bytes. *)
Definition bytes (s : string) : Buffer := Buffer_from (Platform := sample) s.

Definition decode (b : Buffer) : string := Buffer_toString (Platform := sample) b.

(** A message with the value [s]. *)
Definition raw (s : string) (hs : option (list header)) : message :=
  {| value := Some (bytes s); headers := hs; key := None; timestamp := 0 |}.
(* ===================================================================== *)
(** * Part V.  The sample platform: [parse] after [stringify]            *)
(* ===================================================================== *)

Lemma sapp_assoc (a b c : string) : (a +:+ b) +:+ c = a +:+ (b +:+ c).
Proof. induction a as [|x a IH]; cbn; [done|by f_equal]. Qed.

Lemma sapp_length (a b : string) :
  String.length (a +:+ b) = (String.length a + String.length b)%nat.
Proof. induction a as [|x a IH]; cbn; [done|by f_equal]. Qed.

Lemma read_digits_print (u : uint) (rest : string) :
  number_end rest = true ->
  read_digits (NilEmpty.string_of_uint u +:+ rest) = (u, rest).
Proof.
  intros Hend. induction u as [|u IH|u IH|u IH|u IH|u IH|u IH|u IH|u IH|u IH|u IH];
    try (cbn [NilEmpty.string_of_uint String.append read_digits];
         change (digit_of _) with (Some D0) || idtac;
         cbn; rewrite IH; reflexivity).
  cbn. destruct rest as [|c r]; [done|].
  cbn in *. destruct (digit_of c); [done|reflexivity].
Qed.

Lemma to_uint_shape (n : N) :
  match N.to_uint n with
  | Nil => False
  | D0 Nil => True
  | D0 _ => False
  | _ => True
  end.
Proof.
  assert (H : N.to_uint n = unorm (N.to_uint n)).
  { rewrite <- (DecimalN.Unsigned.to_of (N.to_uint n)).
    by rewrite DecimalN.Unsigned.of_to. }
  rewrite H. generalize (N.to_uint n) as d. clear.
  induction d; cbn; done.
Qed.

Lemma parse_nat_print (n : N) (rest : string) :
  number_end rest = true ->
  parse_nat (print_N n +:+ rest) = Some (n, rest).
Proof.
  intros Hend. unfold parse_nat, print_N.
  rewrite read_digits_print by done.
  pose proof (to_uint_shape n) as Hs.
  assert (Hf : starts_fraction rest = false).
  { destruct rest as [|c r]; [done|]. cbn in Hend.
    destruct (digit_of c); [done|]. by apply negb_true_iff in Hend. }
  pose proof (DecimalN.Unsigned.of_to n) as Hn.
  destruct (N.to_uint n) as [|u|u|u|u|u|u|u|u|u|u]; try done;
    try (rewrite Hf, Hn; reflexivity).
  destruct u; try done. rewrite Hf, Hn. reflexivity.
Qed.

Lemma parse_chars_escape_char (c : ascii) (t : string) :
  parse_chars (escape_char c +:+ t) = prepend (String c "") (parse_chars t).
Proof.
  destruct c as [[] [] [] [] [] [] [] []]; reflexivity.
Qed.

Lemma parse_chars_escape (s rest : string) :
  parse_chars (escape s +:+ String dquote rest) = Some (s, rest).
Proof.
  induction s as [|c s IH]; [reflexivity|].
  cbn [escape]. rewrite sapp_assoc, parse_chars_escape_char, IH. reflexivity.
Qed.

Lemma parse_chars_quote (s rest : string) :
  quote s +:+ rest = String dquote (escape s +:+ String dquote rest).
Proof. unfold quote. cbn. by rewrite sapp_assoc. Qed.


Lemma stringify_arr items :
  stringify (JArr items) = String "[" (print_elems items +:+ "]").
Proof. reflexivity. Qed.

Lemma stringify_obj fields :
  stringify (JObj fields) = String "{" (print_members fields +:+ "}").
Proof. reflexivity. Qed.

Lemma skip_ws_first (s : string) : first_ok s = true -> skip_ws s = s.
Proof.
  destruct s as [|c r]; [done|]. cbn. destruct (is_ws c); done.
Qed.

Lemma print_N_first (n : N) (rest : string) :
  exists c t, print_N n +:+ rest = String c t /\ is_Some (digit_of c).
Proof.
  unfold print_N. pose proof (to_uint_shape n) as Hs.
  destruct (N.to_uint n); try done; cbn; eexists _, _; (split; [reflexivity|]);
    cbn; eauto.
Qed.

Lemma digit_first_ok (c : ascii) (t : string) :
  is_Some (digit_of c) -> first_ok (String c t) = true.
Proof.
  destruct c as [[] [] [] [] [] [] [] []]; cbn; intros [? ?]; done.
Qed.

Lemma stringify_first (v : json Z) (rest : string) :
  first_ok (stringify v +:+ rest) = true.
Proof.
  destruct v as [|[]|n|s|items|fields]; try reflexivity.
  cbn [stringify]. unfold print_Z. destruct (n <? 0); [reflexivity|].
  destruct (print_N_first (Z.to_N n) rest) as (c & t & -> & Hc).
  by apply digit_first_ok.
Qed.

Lemma pv_minus f r :
  parse_value (S f) (String "-" r)
  = parse_nat r ≫= λ '(n, r'), Some (JNum (- Z.of_N n), r').
Proof. reflexivity. Qed.

Lemma pv_digit f c r :
  is_Some (digit_of c) ->
  parse_value (S f) (String c r)
  = parse_nat (String c r) ≫= λ '(n, r'), Some (JNum (Z.of_N n), r').
Proof.
  intros [d Hd].
  destruct c as [[] [] [] [] [] [] [] []]; try discriminate Hd; reflexivity.
Qed.

Lemma pv_quote f r :
  parse_value (S f) (String dquote r)
  = parse_chars r ≫= λ '(str, r'), Some (JStr str, r').
Proof. reflexivity. Qed.

Lemma pv_arr f r :
  parse_value (S f) (String "[" r)
  = match skip_ws r with
    | String c' r' =>
        if (N_of_ascii c' =? 93)%N then Some (JArr [], r')
        else parse_elems f (skip_ws r) [] ≫= λ '(items, r''), Some (JArr items, r'')
    | EmptyString => None
    end.
Proof. reflexivity. Qed.

Lemma pv_obj f r :
  parse_value (S f) (String "{" r)
  = match skip_ws r with
    | String c' r' =>
        if (N_of_ascii c' =? 125)%N then Some (JObj [], r')
        else parse_members f (skip_ws r) [] ≫= λ '(fields, r''), Some (JObj fields, r'')
    | EmptyString => None
    end.
Proof. reflexivity. Qed.

Lemma pe_step f s acc :
  parse_elems (S f) s acc
  = parse_value f s ≫= λ '(v, r),
      match skip_ws r with
      | String c r' =>
          if (N_of_ascii c =? 44)%N then parse_elems f r' (acc ++ [v])
          else if (N_of_ascii c =? 93)%N then Some (acc ++ [v], r')
          else None
      | EmptyString => None
      end.
Proof. reflexivity. Qed.

Lemma pm_step f r1 acc :
  parse_members (S f) (String dquote r1) acc
  = parse_chars r1 ≫= λ '(k, r1),
      match skip_ws r1 with
      | String colon r2 =>
          if (N_of_ascii colon =? 58)%N then
            parse_value f r2 ≫= λ '(v, r3),
              match skip_ws r3 with
              | String c r4 =>
                  if (N_of_ascii c =? 44)%N
                  then parse_members f r4 (obj_set k v acc)
                  else if (N_of_ascii c =? 125)%N
                  then Some (obj_set k v acc, r4)
                  else None
              | EmptyString => None
              end
          else None
      | EmptyString => None
      end.
Proof. reflexivity. Qed.

Lemma parse_value_num (f : nat) (n : Z) (rest : string) :
  number_end rest = true ->
  parse_value (S f) (print_Z n +:+ rest) = Some (JNum n, rest).
Proof.
  intros Hend. unfold print_Z. destruct (Z.ltb_spec n 0) as [Hn|Hn].
  - cbn [String.append]. rewrite pv_minus, parse_nat_print by done.
    cbn. do 3 f_equal. lia.
  - pose proof (parse_nat_print (Z.to_N n) rest Hend) as Hp.
    destruct (print_N_first (Z.to_N n) rest) as (c & t & Heq & Hc).
    rewrite Heq in *. rewrite pv_digit, Hp by done.
    cbn. do 3 f_equal. lia.
Qed.

Lemma parse_elems_print (items : list (json Z)) :
  items <> [] -> Forall roundtrips items ->
  forall fuel acc rest,
    (sum_list_with (fun x => S (size x)) items <= fuel)%nat ->
    parse_elems fuel (print_elems items +:+ String "]" rest) acc
    = Some (acc ++ items, rest).
Proof.
  intros Hne Hall. induction Hall as [|x r Hx Hr IH]; [done|].
  intros fuel acc rest Hfuel. cbn [sum_list_with] in Hfuel.
  destruct fuel as [|f]; [lia|]. rewrite pe_step.
  destruct r as [|y r'].
  - cbn [print_elems]. rewrite Hx by (done || lia). reflexivity.
  - change (print_elems (x :: y :: r'))
      with (stringify x +:+ String "," (print_elems (y :: r'))).
    rewrite sapp_assoc. cbn [String.append].
    rewrite Hx by (done || lia).
    change (parse_elems f (print_elems (y :: r') +:+ String "]" rest) (acc ++ [x])
            = Some (acc ++ x :: y :: r', rest)).
    rewrite IH by (done || lia). by rewrite <- app_assoc.
Qed.

Lemma obj_set_fresh (k : string) (v : json Z) (acc : list (string * json Z)) :
  existsb (String.eqb k) (keys acc) = false -> obj_set k v acc = acc ++ [(k, v)].
Proof.
  induction acc as [|[k' v'] acc IH]; [done|]. cbn.
  destruct (String.eqb k k'); [done|]. cbn. intros H. by rewrite IH.
Qed.

Lemma nodupb_app_cons (a : list string) (k : string) (b : list string) :
  nodupb (a ++ k :: b) = true ->
  existsb (String.eqb k) a = false /\ nodupb ((a ++ [k]) ++ b) = true.
Proof.
  rewrite <- app_assoc. cbn [app]. induction a as [|x a IH]; cbn [app nodupb existsb].
  - intros H. split; [done|exact H].
  - rewrite !andb_true_iff, !negb_true_iff, !orb_false_iff.
    intros [Hx Hn]. destruct (IH Hn) as [Hk Hn'].
    rewrite existsb_app in Hx. cbn [existsb] in Hx.
    apply orb_false_iff in Hx as [Hxa Hx].
    apply orb_false_iff in Hx as [Hxk Hxb].
    rewrite String.eqb_sym. repeat split; try done.
    rewrite existsb_app. cbn [existsb]. by rewrite Hxa, Hxk, Hxb.
Qed.

Lemma parse_members_print (fields : list (string * json Z)) :
  fields <> [] -> Forall (fun kv => roundtrips (snd kv)) fields ->
  forall fuel acc rest,
    (sum_list_with (fun kv => S (size (snd kv))) fields <= fuel)%nat ->
    nodupb (keys acc ++ keys fields) = true ->
    parse_members fuel (print_members fields +:+ String "}" rest) acc
    = Some (acc ++ fields, rest).
Proof.
  intros Hne Hall. induction Hall as [|[k x] r Hx Hr IH]; [done|].
  intros fuel acc rest Hfuel Hnd. cbn [sum_list_with snd] in Hfuel.
  destruct fuel as [|f]; [lia|].
  cbn [keys map fst] in Hnd. apply nodupb_app_cons in Hnd as [Hfresh Hnd].
  cbn [snd] in Hx.
  destruct r as [|[k' y] r'].
  - cbn [print_members]. rewrite sapp_assoc, parse_chars_quote.
    rewrite (pm_step f), parse_chars_escape. cbn [String.append].
    change (parse_value f (stringify x +:+ String "}" rest) ≫= (λ '(v, r3),
              match skip_ws r3 with
              | String c r4 =>
                  if (N_of_ascii c =? 44)%N
                  then parse_members f r4 (obj_set k v acc)
                  else if (N_of_ascii c =? 125)%N
                  then Some (obj_set k v acc, r4)
                  else None
              | EmptyString => None
              end) = Some (acc ++ [(k, x)], rest)).
    rewrite Hx by (done || lia).
    change (Some (obj_set k x acc, rest) = Some (acc ++ [(k, x)], rest)).
    by rewrite obj_set_fresh.
  - change (print_members ((k, x) :: (k', y) :: r'))
      with (quote k +:+ String ":" (stringify x +:+
              String "," (print_members ((k', y) :: r')))).
    rewrite sapp_assoc, parse_chars_quote.
    rewrite (pm_step f), parse_chars_escape. cbn [String.append].
    rewrite sapp_assoc. cbn [String.append].
    change (parse_value f (stringify x +:+
              String "," (print_members ((k', y) :: r') +:+ String "}" rest))
            ≫= (λ '(v, r3),
              match skip_ws r3 with
              | String c r4 =>
                  if (N_of_ascii c =? 44)%N
                  then parse_members f r4 (obj_set k v acc)
                  else if (N_of_ascii c =? 125)%N
                  then Some (obj_set k v acc, r4)
                  else None
              | EmptyString => None
              end) = Some (acc ++ (k, x) :: (k', y) :: r', rest)).
    rewrite Hx by (done || lia).
    change (parse_members f (print_members ((k', y) :: r') +:+ String "}" rest)
              (obj_set k x acc) = Some (acc ++ (k, x) :: (k', y) :: r', rest)).
    rewrite obj_set_fresh by done.
    rewrite IH; [by rewrite <- app_assoc|done|lia|].
    unfold keys in *. by rewrite map_app.
Qed.

Lemma parse_value_stringify (v : json Z) :
  wf v = true -> roundtrips v.
Proof.
  induction v as [|b|n|s|items IH|fields IH] using json_rect';
    intros Hwf fuel rest Hfuel Hend;
    (destruct fuel as [|f]; [cbn in Hfuel; lia|]).
  - reflexivity.
  - destruct b; reflexivity.
  - by apply parse_value_num.
  - cbn [stringify]. rewrite parse_chars_quote, pv_quote.
    by rewrite parse_chars_escape.
  - rewrite stringify_arr. cbn [String.append]. rewrite sapp_assoc.
    cbn [String.append]. rewrite pv_arr.
    destruct items as [|x r]; [reflexivity|].
    assert (Hfo : first_ok (print_elems (x :: r) +:+ String "]" rest) = true).
    { destruct r; cbn [print_elems]; [|rewrite sapp_assoc]; apply stringify_first. }
    rewrite skip_ws_first by done.
    destruct (print_elems (x :: r) +:+ String "]" rest) as [|c t] eqn:Heq; [done|].
    cbn in Hfo. apply andb_true_iff in Hfo as [Hfo _].
    apply andb_true_iff in Hfo as [_ Hfo]. apply negb_true_iff in Hfo.
    rewrite Hfo, <- Heq.
    rewrite (parse_elems_print (x :: r)); [done|done| |cbn in Hfuel; cbn; lia].
    cbn [wf] in Hwf. rewrite forallb_forall in Hwf.
    rewrite Forall_forall in IH |- *. intros y Hy. apply IH; [done|].
    apply Hwf. by apply list_elem_of_In.
  - rewrite stringify_obj. cbn [String.append]. rewrite sapp_assoc.
    cbn [String.append]. rewrite pv_obj.
    destruct fields as [|[k x] r]; [reflexivity|].
    assert (Hfo : first_ok (print_members ((k, x) :: r) +:+ String "}" rest) = true).
    { destruct r as [|[]]; reflexivity. }
    rewrite skip_ws_first by done.
    destruct (print_members ((k, x) :: r) +:+ String "}" rest) as [|c t] eqn:Heq; [done|].
    cbn in Hfo. apply andb_true_iff in Hfo as [_ Hfo]. apply negb_true_iff in Hfo.
    rewrite Hfo, <- Heq.
    cbn [wf] in Hwf. apply andb_true_iff in Hwf as [Hnd Hwf].
    rewrite (parse_members_print ((k, x) :: r)); [done|done| |cbn in Hfuel; cbn; lia|done].
    rewrite forallb_forall in Hwf.
    rewrite Forall_forall in IH |- *. intros y Hy. apply IH; [done|].
    apply Hwf. by apply list_elem_of_In.
Qed.

Lemma sapp_nil_r (s : string) : s +:+ "" = s.
Proof. induction s as [|c s IH]; cbn; [done|by f_equal]. Qed.

Lemma print_Z_length (n : Z) : (1 <= String.length (print_Z n))%nat.
Proof.
  unfold print_Z. destruct (n <? 0); [cbn; lia|].
  destruct (print_N_first (Z.to_N n) "") as (c & t & Heq & _).
  rewrite sapp_nil_r in Heq. rewrite Heq. cbn. lia.
Qed.

Lemma size_elems_length (items : list (json Z)) :
  Forall (fun x => (size x <= String.length (stringify x))%nat) items ->
  (sum_list_with (fun x => S (size x)) items
   <= S (String.length (print_elems items)))%nat.
Proof.
  induction 1 as [|x r Hx Hr IH]; [cbn; lia|].
  destruct r as [|y r'].
  - cbn. lia.
  - change (print_elems (x :: y :: r'))
      with (stringify x +:+ String "," (print_elems (y :: r'))).
    rewrite sapp_length. cbn [sum_list_with String.length] in *. lia.
Qed.

Lemma size_members_length (fields : list (string * json Z)) :
  Forall (fun kv => (size (snd kv) <= String.length (stringify (snd kv)))%nat)
    fields ->
  (sum_list_with (fun kv => S (size (snd kv))) fields
   <= S (String.length (print_members fields)))%nat.
Proof.
  induction 1 as [|[k x] r Hx Hr IH]; [cbn; lia|].
  destruct r as [|[k' y] r'].
  - cbn [print_members sum_list_with snd] in *. rewrite sapp_length.
    cbn [String.length]. lia.
  - change (print_members ((k, x) :: (k', y) :: r'))
      with (quote k +:+ String ":" (stringify x +:+
              String "," (print_members ((k', y) :: r')))).
    rewrite sapp_length. cbn [String.length]. rewrite sapp_length.
    cbn [sum_list_with String.length snd] in *. lia.
Qed.

Lemma size_le_length (v : json Z) :
  (size v <= String.length (stringify v))%nat.
Proof.
  induction v as [|b|n|s|items IH|fields IH] using json_rect'.
  - cbn. lia.
  - destruct b; cbn; lia.
  - cbn [size stringify]. apply print_Z_length.
  - cbn. lia.
  - rewrite stringify_arr. cbn [size String.length]. rewrite sapp_length.
    pose proof (size_elems_length items IH). cbn [String.length]. lia.
  - rewrite stringify_obj. cbn [size String.length]. rewrite sapp_length.
    pose proof (size_members_length fields IH). cbn [String.length]. lia.
Qed.

Theorem parse_stringify (v : json Z) : wf v = true -> parse (stringify v) = Some v.
Proof.
  intros Hwf. unfold parse.
  pose proof (parse_value_stringify v Hwf (S (String.length (stringify v))) "") as H.
  rewrite sapp_nil_r in H. rewrite H; [done| |done].
  pose proof (size_le_length v). lia.
Qed.

(** ** The fuel of [parse] is enough *)

Lemma skip_ws_length (s : string) :
  (String.length (skip_ws s) <= String.length s)%nat.
Proof.
  induction s as [|c s IH]; cbn; [lia|]. destruct (is_ws c); cbn; lia.
Qed.

Lemma expect_length (lit s r : string) :
  expect lit s = Some r ->
  String.length s = (String.length lit + String.length r)%nat.
Proof.
  revert s. induction lit as [|a lit IH]; intros s; cbn.
  - by intros [= ->].
  - destruct s as [|b s]; [done|]. destruct (Ascii.eqb a b); [|done].
    intros H. cbn. by rewrite (IH _ H).
Qed.

Lemma prepend_some p o x r :
  prepend p o = Some (x, r) -> exists y, o = Some (y, r).
Proof. destruct o as [[y r']|]; cbn; [|done]. intros [= _ ->]. eauto. Qed.

Lemma parse_chars_length (s x r : string) :
  parse_chars s = Some (x, r) -> (String.length r < String.length s)%nat.
Proof.
  remember (String.length s) as n eqn:Hn. revert s x r Hn.
  induction n as [n IH] using lt_wf_ind. intros s x r -> Hp.
  destruct s as [|c s]; [done|]. cbn [parse_chars] in Hp. cbn zeta in Hp.
  destruct (N_of_ascii c =? 34)%N; [injection Hp as _ ->; cbn; lia|].
  destruct (N_of_ascii c =? 92)%N.
  - destruct s as [|e s]; [done|]. destruct (unescape e).
    + apply prepend_some in Hp as [y Hy].
      pose proof (IH (String.length s) ltac:(cbn; lia) s y r eq_refl Hy). cbn. lia.
    + destruct (N_of_ascii e =? 117)%N; [|done].
      destruct s as [|h1 [|h2 [|h3 [|h4 s]]]]; try done.
      destruct (hex4 h1 h2 h3 h4); [|done].
      apply prepend_some in Hp as [y Hy].
      pose proof (IH (String.length s) ltac:(cbn; lia) s y r eq_refl Hy). cbn. lia.
  - destruct (N_of_ascii c <? 32)%N; [done|].
    apply prepend_some in Hp as [y Hy].
    pose proof (IH (String.length s) ltac:(cbn; lia) s y r eq_refl Hy). cbn. lia.
Qed.

Lemma read_digits_length (s : string) (u : uint) (r : string) :
  read_digits s = (u, r) ->
  (String.length r <= String.length s)%nat
  /\ (u <> Nil -> (String.length r < String.length s)%nat).
Proof.
  revert u r. induction s as [|c s IH]; intros u r; cbn.
  - intros [= <- <-]. split; [done|done].
  - destruct (digit_of c) as [d|].
    + destruct (read_digits s) as [u' r'] eqn:Hr. intros [= <- <-].
      destruct (IH _ _ eq_refl) as [Hle _]. cbn. split; intros; lia.
    + intros [= <- <-]. split; [done|done].
Qed.

Lemma parse_nat_length (s : string) (n : N) (r : string) :
  parse_nat s = Some (n, r) -> (String.length r < String.length s)%nat.
Proof.
  unfold parse_nat. destruct (read_digits s) as [u r'] eqn:Hr.
  apply read_digits_length in Hr as [_ Hlt]. intros Hp.
  assert (Hu : u <> Nil) by (intros ->; done).
  assert (r' = r) as ->.
  { destruct u; try done; try (destruct (starts_fraction r'); congruence).
    destruct u; try done. destruct (starts_fraction r'); congruence. }
  by apply Hlt.
Qed.

(** A successful run of each of the three mutually recursive parsers
    shortens the text, and any fuel that is at least the number of
    characters consumed gives the same result. *)
Lemma parse_fuel (f : nat) :
  (forall s v r,
      parse_value f s = Some (v, r) ->
      (String.length r < String.length s)%nat
      /\ forall f', (String.length s - String.length r <= f')%nat ->
                    parse_value f' s = Some (v, r))
  /\ (forall s acc l r,
        parse_elems f s acc = Some (l, r) ->
        (String.length r < String.length s)%nat
        /\ forall f', (String.length s - String.length r <= f')%nat ->
                      parse_elems f' s acc = Some (l, r))
  /\ (forall s acc l r,
        parse_members f s acc = Some (l, r) ->
        (String.length r < String.length s)%nat
        /\ forall f', (String.length s - String.length r <= f')%nat ->
                      parse_members f' s acc = Some (l, r)).
Proof.
  induction f as [|f (IHv & IHe & IHm)]; [by repeat split|].
  split; [|split].
  - intros s v r. cbn [parse_value].
    pose proof (skip_ws_length s) as Hws.
    destruct (skip_ws s) as [|c r0] eqn:Hs; [done|]. cbn [String.length] in Hws.
    destruct (token_of c) eqn:Htok.
    + destruct (expect "ull" r0) as [r'|] eqn:He; [|done]. intros [= <- <-].
      apply expect_length in He as Hl. cbn [String.length] in Hl.
      split; [lia|]. intros [|g] Hg; [lia|]. cbn [parse_value].
      by rewrite Hs, Htok, He.
    + destruct (expect "rue" r0) as [r'|] eqn:He; [|done]. intros [= <- <-].
      apply expect_length in He as Hl. cbn [String.length] in Hl.
      split; [lia|]. intros [|g] Hg; [lia|]. cbn [parse_value].
      by rewrite Hs, Htok, He.
    + destruct (expect "alse" r0) as [r'|] eqn:He; [|done]. intros [= <- <-].
      apply expect_length in He as Hl. cbn [String.length] in Hl.
      split; [lia|]. intros [|g] Hg; [lia|]. cbn [parse_value].
      by rewrite Hs, Htok, He.
    + destruct (parse_chars r0) as [[str r']|] eqn:He; [|done]. intros [= <- <-].
      apply parse_chars_length in He as Hl.
      split; [lia|]. intros [|g] Hg; [lia|]. cbn [parse_value].
      by rewrite Hs, Htok, He.
    + destruct (parse_nat r0) as [[n r']|] eqn:He; [|done]. intros [= <- <-].
      apply parse_nat_length in He as Hl.
      split; [lia|]. intros [|g] Hg; [lia|]. cbn [parse_value].
      by rewrite Hs, Htok, He.
    + pose proof (skip_ws_length r0) as Hws2.
      destruct (skip_ws r0) as [|c' r'] eqn:Hs2; [done|].
      cbn [String.length] in Hws2.
      destruct (N_of_ascii c' =? 93)%N eqn:Hc.
      * intros [= <- <-]. split; [lia|]. intros [|g] Hg; [lia|].
        cbn [parse_value]. by rewrite Hs, Htok, Hs2, Hc.
      * destruct (parse_elems f (String c' r') []) as [[items r'']|] eqn:He;
          [|done].
        intros [= <- <-]. destruct (IHe _ _ _ _ He) as [Hl Hf].
        cbn [String.length] in Hl, Hf.
        split; [lia|]. intros [|g] Hg; [lia|]. cbn [parse_value].
        rewrite Hs, Htok, Hs2, Hc, Hf by lia. done.
    + pose proof (skip_ws_length r0) as Hws2.
      destruct (skip_ws r0) as [|c' r'] eqn:Hs2; [done|].
      cbn [String.length] in Hws2.
      destruct (N_of_ascii c' =? 125)%N eqn:Hc.
      * intros [= <- <-]. split; [lia|]. intros [|g] Hg; [lia|].
        cbn [parse_value]. by rewrite Hs, Htok, Hs2, Hc.
      * destruct (parse_members f (String c' r') []) as [[fields r'']|] eqn:He;
          [|done].
        intros [= <- <-]. destruct (IHm _ _ _ _ He) as [Hl Hf].
        cbn [String.length] in Hl, Hf.
        split; [lia|]. intros [|g] Hg; [lia|]. cbn [parse_value].
        rewrite Hs, Htok, Hs2, Hc, Hf by lia. done.
    + destruct (parse_nat (String c r0)) as [[n r']|] eqn:He; [|done].
      intros [= <- <-]. apply parse_nat_length in He as Hl.
      cbn [String.length] in Hl.
      split; [lia|]. intros [|g] Hg; [lia|]. cbn [parse_value].
      by rewrite Hs, Htok, He.
    + done.
  - intros s acc l r. cbn [parse_elems].
    destruct (parse_value f s) as [[v r1]|] eqn:Hv; [|done].
    destruct (IHv _ _ _ Hv) as [Hl1 Hf1]. cbn [mbind option_bind].
    pose proof (skip_ws_length r1) as Hws.
    destruct (skip_ws r1) as [|c r'] eqn:Hs; [done|]. cbn [String.length] in Hws.
    destruct (N_of_ascii c =? 44)%N eqn:Hc.
    + intros He. destruct (IHe _ _ _ _ He) as [Hl Hf].
      split; [lia|]. intros [|g] Hg; [lia|]. cbn [parse_elems].
      rewrite Hf1 by lia. cbn [mbind option_bind].
      rewrite Hs, Hc. apply Hf. lia.
    + destruct (N_of_ascii c =? 93)%N eqn:Hc2; [|done]. intros [= <- <-].
      split; [lia|]. intros [|g] Hg; [lia|]. cbn [parse_elems].
      rewrite Hf1 by lia. cbn [mbind option_bind]. by rewrite Hs, Hc, Hc2.
  - intros s acc l r. cbn [parse_members].
    pose proof (skip_ws_length s) as Hws0.
    destruct (skip_ws s) as [|q r0] eqn:Hs0; [done|].
    cbn [String.length] in Hws0.
    destruct (N_of_ascii q =? 34)%N eqn:Hq; [|done].
    destruct (parse_chars r0) as [[k r1]|] eqn:Hk; [|done].
    apply parse_chars_length in Hk as Hlk. cbn [mbind option_bind].
    pose proof (skip_ws_length r1) as Hws1.
    destruct (skip_ws r1) as [|colon r2] eqn:Hs1; [done|].
    cbn [String.length] in Hws1.
    destruct (N_of_ascii colon =? 58)%N eqn:Hcolon; [|done].
    destruct (parse_value f r2) as [[v r3]|] eqn:Hv; [|done].
    destruct (IHv _ _ _ Hv) as [Hl3 Hf3]. cbn [mbind option_bind].
    pose proof (skip_ws_length r3) as Hws3.
    destruct (skip_ws r3) as [|c r4] eqn:Hs3; [done|].
    cbn [String.length] in Hws3.
    destruct (N_of_ascii c =? 44)%N eqn:Hc.
    + intros He. destruct (IHm _ _ _ _ He) as [Hl Hf].
      split; [lia|]. intros [|g] Hg; [lia|]. cbn [parse_members].
      rewrite Hs0, Hq, Hk. cbn [mbind option_bind]. rewrite Hs1, Hcolon.
      rewrite Hf3 by lia. cbn [mbind option_bind]. rewrite Hs3, Hc.
      apply Hf. lia.
    + destruct (N_of_ascii c =? 125)%N eqn:Hc2; [|done]. intros [= <- <-].
      split; [lia|]. intros [|g] Hg; [lia|]. cbn [parse_members].
      rewrite Hs0, Hq, Hk. cbn [mbind option_bind]. rewrite Hs1, Hcolon.
      rewrite Hf3 by lia. cbn [mbind option_bind]. by rewrite Hs3, Hc, Hc2.
Qed.

(** [parse] does not depend on its choice of fuel: a text that some fuel
    parses, [parse] parses to the same value.  When [parse] fails, no
    fuel would have parsed the text. *)
Theorem parse_complete (f : nat) (s : string) (v : json Z) (r : string) :
  parse_value f s = Some (v, r) -> skip_ws r = "" -> parse s = Some v.
Proof.
  intros Hv Hr. destruct (parse_fuel f) as [Hf _].
  destruct (Hf _ _ _ Hv) as [_ Hall]. unfold parse.
  rewrite (Hall (S (String.length s))) by lia. cbn. by rewrite Hr.
Qed.

(* ===================================================================== *)
(** * Part VI.  The engine: basic facts                                   *)
(* ===================================================================== *)

(** The lemmas on connections are collected in the hint base [conn],
    those on the registry in [registry]. *)
Create HintDb conn.
Create HintDb registry.

Section Properties.
Context {node : Platform}.

Lemma emits_emits (a b : list effect) (st : KafkaPubSub) :
  emits b (emits a st) = emits (a ++ b) st.
Proof. unfold emits. cbn. by rewrite app_assoc. Qed.

Lemma emits_nil (st : KafkaPubSub) : emits [] st = st.
Proof. destruct st. unfold emits. cbn. by rewrite app_nil_r. Qed.

(** Calls that are rejected do not go on to a second [await]. *)
Lemma resume_all_rejected ks e st :
  resume_all ks (Rejected e) st
  = fold_left (fun acc k => resume k (Rejected e) acc) ks st.
Proof.
  unfold resume_all. generalize (fold_left (fun acc k => resume k (Rejected e) acc) ks st).
  induction ks as [|k ks IH]; intros st'; [done|]. cbn [fold_left finish].
  apply IH.
Qed.

(** [subscribe] registers the new closure after the ones already there. *)
Lemma subscribe_resume_listeners call channel cb st :
  ee (subscribe_resume call channel cb st) !! channel
  = Some (listeners channel st
          ++ [{| fn_id := subIdCounter st + 1; fn_cb := cb |}]).
Proof. cbn. unfold addListener. by rewrite lookup_insert_eq. Qed.


Lemma call_all_hand_over o fs arg v :
  (forall g, internalMessage o g arg = call_back (fn_cb g) v) ->
  call_all o fs arg = hand_over fs v.
Proof.
  intros Hw. induction fs as [|f fs IH]; [done|]. cbn [call_all hand_over].
  rewrite Hw, IH. unfold call_back.
  destruct (cb_run (fn_cb f) v) as [[]|e]; [|done].
  by destruct (hand_over fs v).
Qed.


Lemma internalMessage_headers o g v :
  useHeaders o = true ->
  internalMessage o g (VBuffer v)
  = match JSON_parse (Buffer_toString v) with
    | Some j => call_back (fn_cb g) (VJson j)
    | None => ([], Throw SyntaxError)
    end.
Proof.
  intros H. unfold internalMessage, deserialiseMessage. rewrite H.
  cbn [js_toString]. by destruct (JSON_parse (Buffer_toString v)).
Qed.

(** An [emit] that follows the effects [pre], when every wrapper hands
    [v] to its listener. *)
Lemma emit_hand_over name arg v pre st :
  (forall g, internalMessage (options st) g arg = call_back (fn_cb g) v) ->
  emit name arg (emits pre st)
  = match ee st !! name with
    | Some fs =>
        (emits (pre ++ fst (hand_over fs v)) st, snd (hand_over fs v))
    | None =>
        (emits pre st,
         if String.eqb name "error" then Throw UnhandledErrorEvent
         else Normal tt)
    end.
Proof.
  intros Hw. unfold emit. cbn [ee emits options].
  destruct (ee st !! name) as [fs|]; [|by destruct (String.eqb name "error")].
  rewrite (call_all_hand_over _ fs arg v Hw).
  destruct (hand_over fs v) as [es c]. cbn [fst snd]. by rewrite emits_emits.
Qed.

(* ===================================================================== *)
(** * Part VII.  The claims                                               *)
(* ===================================================================== *)


(** ** Connections are created once *)

Lemma count_new_app s a b :
  count_new s (a ++ b) = (count_new s a + count_new s b)%nat.
Proof. induction a as [|e a IH]; cbn; [done|]. rewrite IH. lia. Qed.

(** The count after some more effects. *)
Ltac recount := unfold created; cbn; rewrite count_new_app; cbn; lia.

Lemma keeps_refl st : keeps st st.
Proof. by intros s. Qed.

Lemma keeps_trans st1 st2 st3 : keeps st1 st2 -> keeps st2 st3 -> keeps st1 st3.
Proof.
  intros H12 H23 s. destruct (H23 s) as [-> ->], (H12 s) as [-> ->]. done.
Qed.

Lemma keeps_emits es st :
  (forall s, count_new s es = 0%nat) -> keeps st (emits es st).
Proof.
  intros Hes s. split; [by destruct s|].
  unfold created. cbn. rewrite count_new_app, Hes. lia.
Qed.

(** Effects that create no client leave the connections as they are. *)
Ltac no_new := apply keeps_emits; by intros [].

Lemma keeps_settle call o st : keeps st (settle call o st).
Proof. intros s. split; by destruct s. Qed.

Lemma keeps_set_waiting s l st : keeps st (set_waiting s l st).
Proof. intros s'. split; by destruct s'. Qed.

Lemma keeps_publish_resume channel payload st :
  keeps st (publish_resume channel payload st).
Proof. no_new. Qed.

Lemma keeps_publish_produce call channel payload now st :
  keeps st (publish_produce call channel payload now st).
Proof. no_new. Qed.

Lemma keeps_subscribe_resume call channel cb st :
  keeps st (subscribe_resume call channel cb st).
Proof. intros s. split; by destruct s. Qed.

#[local] Hint Resolve keeps_refl keeps_settle keeps_set_waiting
  keeps_publish_resume keeps_publish_produce keeps_subscribe_resume : conn.

Lemma keeps_resume k p st : keeps st (resume k p st).
Proof. destruct p, k; cbn [resume]; auto with conn. Qed.

Lemma keeps_finish k p st : keeps st (finish k p st).
Proof. destruct p, k; cbn [finish]; auto with conn. Qed.

(** A fold of steps that keep the connections keeps them. *)
Lemma keeps_fold (f : KafkaPubSub -> suspended -> KafkaPubSub) ks st :
  (forall st' k, keeps st' (f st' k)) -> keeps st (fold_left f ks st).
Proof.
  intros Hf. revert st. induction ks as [|k ks IH]; intros st; cbn [fold_left].
  - apply keeps_refl.
  - eapply keeps_trans; [apply Hf|apply IH].
Qed.

Lemma keeps_resume_all p ks st : keeps st (resume_all ks p st).
Proof.
  unfold resume_all.
  eapply keeps_trans; apply keeps_fold; intros st' k;
    [apply keeps_resume|apply keeps_finish].
Qed.

#[local] Hint Resolve keeps_resume keeps_resume_all : conn.

Lemma keeps_await_on w k st : keeps st (await_on w k st).
Proof.
  unfold await_on. destruct w as [s|]; [|auto with conn].
  destruct (handle s st) as [[]|]; auto with conn.
Qed.

Lemma keeps_settle_handle s p st : keeps st (settle_handle s p st).
Proof.
  unfold settle_handle. destruct (handle s st) as [[]|] eqn:Hs;
    auto with conn.
  eapply keeps_trans; [|apply keeps_resume_all].
  eapply keeps_trans; [|apply keeps_set_waiting].
  intros s'. split; [|done].
  unfold started. destruct s, s'; cbn in *; by rewrite ?Hs.
Qed.

Lemma keeps_on_ready s topics st : keeps st (on_ready s topics st).
Proof.
  unfold on_ready.
  destruct (includes topics (topic (options st))); [destruct s|].
  - eapply keeps_trans; [|apply keeps_settle_handle]. no_new.
  - eapply keeps_trans; [|apply keeps_settle_handle].
    eapply keeps_trans; no_new.
  - eapply keeps_trans; [|apply keeps_settle_handle].
    eapply keeps_trans; no_new.
Qed.

Lemma call_all_called o fs arg :
  forallb is_called (fst (call_all o fs arg)) = true.
Proof.
  induction fs as [|f fs IH]; [done|]. cbn [call_all].
  assert (Hf : forallb is_called (fst (internalMessage o f arg)) = true).
  { unfold internalMessage, call_back.
    destruct (useHeaders o); [destruct (deserialiseMessage arg)|]; done. }
  destruct (internalMessage o f arg) as [es [[]|e]]; [|done].
  destruct (call_all o fs arg) as [es' c]. cbn [fst] in *.
  by rewrite forallb_app, Hf, IH.
Qed.

Lemma called_not_new s es :
  forallb is_called es = true -> count_new s es = 0%nat.
Proof.
  induction es as [|e es IH]; [done|]. cbn.
  intros [He Hes]%andb_true_iff. rewrite (IH Hes). by destruct e.
Qed.

Lemma keeps_emit name arg st : keeps st (fst (emit name arg st)).
Proof.
  unfold emit. destruct (ee st !! name) as [fs|].
  - pose proof (call_all_called (options st) fs arg) as Hc.
    destruct (call_all (options st) fs arg) as [es c]. cbn [fst] in *.
    apply keeps_emits. intros s. by apply called_not_new.
  - destruct (String.eqb name "error"); apply keeps_refl.
Qed.

Lemma keeps_emit_on channel arg st : keeps st (fst (emit_on channel arg st)).
Proof.
  assert (Hk : keeps st
                 (fst match to_property_key channel with
                      | Throw e => (st, Throw e)
                      | Normal name =>
                          match ee st !! name with
                          | Some _ => emit name arg st
                          | None => (st, Normal tt)
                          end
                      end)).
  { destruct (to_property_key channel) as [name|]; [|apply keeps_refl].
    destruct (ee st !! name); [apply keeps_emit|apply keeps_refl]. }
  unfold emit_on. destruct channel as [|b|[]]; try exact Hk. apply keeps_emit.
Qed.

Lemma keeps_on_data m st : keeps st (fst (on_data m st)).
Proof.
  unfold on_data. destruct (value m) as [v|]; [|apply keeps_refl].
  set (st1 := emits _ st).
  assert (H1 : keeps st st1) by no_new.
  assert (He : keeps st (fst (on_data_envelope v st1))).
  { unfold on_data_envelope.
    destruct (deserialiseMessage (VBuffer v)) as [parsed|]; [|done].
    destruct (get_prop parsed "channel") as [c|]; [|done].
    destruct (truthy c).
    - destruct (get_prop parsed "payload"); [|done].
      eapply keeps_trans; [exact H1|apply keeps_emit_on].
    - eapply keeps_trans; [exact H1|apply keeps_emit]. }
  destruct (useHeaders (options st)); [|exact He].
  destruct (headers m) as [hs|]; [|exact He].
  unfold on_data_headers. destruct (find has_channel hs) as [h|].
  - destruct (assoc "channel" h); [|done].
    eapply keeps_trans; [exact H1|apply keeps_emit].
  - eapply keeps_trans; [exact H1|]. no_new.
Qed.

Lemma keeps_unsubscribe index st : keeps st (fst (unsubscribe index st)).
Proof.
  unfold unsubscribe. destruct (subscriptions st !! index) as [[channel f]|].
  - intros s. split; [by destruct s|]. recount.
  - apply keeps_refl.
Qed.

(** The connections after [createProducer] and [createConsumer]. *)
Lemma createProducer_conn st s :
  let st' := fst (createProducer st) in
  match s, producer st with
  | ProducerSide, None =>
      started s st' = true /\ created s st' = S (created s st)
  | _, _ => started s st' = started s st /\ created s st' = created s st
  end.
Proof.
  unfold createProducer. destruct (producer st) eqn:Hp; destruct s; cbn [fst];
    try done.
  - split; [done|]. recount.
  - split; [done|]. recount.
Qed.

Lemma createConsumer_conn uuid st s :
  let st' := fst (createConsumer uuid st) in
  match s, consumer st with
  | ConsumerSide, None =>
      started s st' = true /\ created s st' = S (created s st)
  | _, _ => started s st' = started s st /\ created s st' = created s st
  end.
Proof.
  unfold createConsumer. destruct (consumer st) eqn:Hp; destruct s; cbn [fst];
    try done.
  - split; [done|]. recount.
  - split; [done|]. recount.
Qed.

(** What a step does to one connection: nothing, or the one creation
    that sets the field. *)
Lemma step_conn e st s :
  (started s (step st e) = started s st
   /\ created s (step st e) = created s st)
  \/ (started s st = false /\ started s (step st e) = true
      /\ created s (step st e) = S (created s st)).
Proof.
  destruct e as [call channel payload now|call channel cb uuid|index
                |s' topics|call err|m]; cbn [step].
  - unfold publish.
    pose proof (createProducer_conn st s) as Hc. cbn zeta in Hc.
    destruct (createProducer st) as [st1 w]. cbn [fst] in Hc.
    destruct (keeps_await_on w (KPublish call channel payload now) st1 s)
      as [-> ->].
    destruct s; [|left; exact Hc].
    destruct (producer st) eqn:Hp; [left; exact Hc|]. right.
    split; [|exact Hc]. unfold started. cbn [handle]. by rewrite Hp.
  - unfold subscribe.
    set (st0 := emits _ st).
    assert (H0 : keeps st st0) by no_new.
    pose proof (createConsumer_conn uuid st0 s) as Hc. cbn zeta in Hc.
    destruct (createConsumer uuid st0) as [st1 w]. cbn [fst] in Hc.
    destruct (keeps_await_on w (KSubscribe call channel cb) st1 s) as [-> ->].
    destruct (H0 s) as [Hs0 Hc0]. rewrite <- Hs0, <- Hc0.
    destruct s; [left; exact Hc|].
    destruct (consumer st0) eqn:Hp; [left; exact Hc|]. right.
    split; [|exact Hc]. unfold started. cbn [handle]. by rewrite Hp.
  - left. apply keeps_unsubscribe.
  - left. destruct (handle s' st); [apply keeps_on_ready|done].
  - left. apply keeps_settle.
  - left. apply keeps_on_data.
Qed.

Lemma one_each_init o : one_each (init o).
Proof. by intros []. Qed.

Lemma one_each_step e st : one_each st -> one_each (step st e).
Proof.
  intros Hinv s. specialize (Hinv s).
  destruct (step_conn e st s) as [[-> ->]|(Hs & -> & ->)]; [done|].
  rewrite Hs in Hinv. by rewrite Hinv.
Qed.

Lemma one_each_run es st : one_each st -> one_each (run es st).
Proof.
  revert st. induction es as [|e es IH]; intros st Hinv; [done|].
  apply IH. by apply one_each_step.
Qed.

Lemma started_run es st s :
  one_each st -> started s st = true ->
  started s (run es st) = true /\ created s (run es st) = created s st.
Proof.
  revert st. induction es as [|e es IH]; intros st Hinv Hs; [done|].
  cbn [run fold_left].
  destruct (step_conn e st s) as [[Hs' Hc']|(Hs' & _)]; [|congruence].
  rewrite <- Hc'. apply IH; [by apply one_each_step|congruence].
Qed.

(** X12.  Along every run of an engine, whatever calls and broker events
    it is made of, at most one producer and at most one consumer are
    created.  Before the field of a side is set no client of that side
    exists; once it is set, [createProducer] (resp. [createConsumer])
    leaves the engine as it is, and through every continuation of the run
    the field stays set and no further client is created. *)
Theorem single_connection (o : IKafkaOptions) (es1 es2 : list event) :
  let st := run es1 (init o) in
  let st' := run es2 st in
  ((created ProducerSide st' <= 1)%nat /\ (created ConsumerSide st' <= 1)%nat)
  /\ match producer st with
     | None => created ProducerSide st = 0%nat
     | Some _ =>
         fst (createProducer st) = st
         /\ started ProducerSide st' = true
         /\ created ProducerSide st' = created ProducerSide st
     end
  /\ match consumer st with
     | None => created ConsumerSide st = 0%nat
     | Some _ =>
         (forall uuid, fst (createConsumer uuid st) = st)
         /\ started ConsumerSide st' = true
         /\ created ConsumerSide st' = created ConsumerSide st
     end.
Proof.
  intros st st'.
  assert (Hinv : one_each st) by apply one_each_run, one_each_init.
  assert (Hinv' : one_each st') by by apply one_each_run.
  split; [|split].
  - pose proof (Hinv' ProducerSide) as Hp. pose proof (Hinv' ConsumerSide) as Hc.
    destruct (started ProducerSide st'), (started ConsumerSide st'); lia.
  - pose proof (Hinv ProducerSide) as Hp.
    pose proof (started_run es2 st ProducerSide Hinv) as Hrun.
    unfold started in Hp, Hrun at 1. cbn [handle] in Hp, Hrun.
    unfold createProducer. destruct (producer st); [|done].
    split; [done|]. by apply Hrun.
  - pose proof (Hinv ConsumerSide) as Hp.
    pose proof (started_run es2 st ConsumerSide Hinv) as Hrun.
    unfold started in Hp, Hrun at 1. cbn [handle] in Hp, Hrun.
    unfold createConsumer. destruct (consumer st); [|done].
    split; [done|]. by apply Hrun.
Qed.

(** ** The data handler *)

Lemma find_none (hs : list header) :
  existsb has_channel hs = false -> find has_channel hs = None.
Proof.
  induction hs as [|h hs IH]; [done|]. cbn.
  destruct (has_channel h); [done|exact IH].
Qed.

(** A message without headers, or any message in envelope mode, takes
    the envelope branch. *)
Lemma on_data_envelope_branch (m : message) (v : Buffer) (st : KafkaPubSub) :
  value m = Some v ->
  header_branch (options st) m = false ->
  on_data m st
  = on_data_envelope v
      (emits [Log LDebug "Received %s" (Buffer_toString v)] st).
Proof.
  intros Hv Hb. unfold on_data, header_branch in *. rewrite Hv.
  destruct (useHeaders (options st)); [|by destruct (headers m)].
  by destruct (headers m).
Qed.

(** C3 (as amended).  Of the messages that have a value: a
    header-branch message without a [channel] header is dropped with a
    warning and the handler returns; an envelope-branch message whose
    value is not JSON text is not caught: the handler raises the
    [SyntaxError] of [JSON.parse], having logged only the received
    text.  (The statement also says what happens to a message without a
    value: reading the value raises a [TypeError], and nothing is
    logged.) *)
Theorem decode_failure (st : KafkaPubSub) (m : message) :
  undecodable (options st) m = true ->
  on_data m st
  = match value m with
    | None => (st, Throw TypeError)
    | Some v =>
        if header_branch (options st) m
        then (emits [Log LDebug "Received %s" (Buffer_toString v);
                     Log LWarn "Missing 'channel' header" ""] st,
              Normal tt)
        else (emits [Log LDebug "Received %s" (Buffer_toString v)] st,
              Throw SyntaxError)
    end.
Proof.
  intros Hu. destruct (value m) as [v|] eqn:Hv;
    [|unfold on_data; by rewrite Hv].
  destruct (header_branch (options st) m) eqn:Hb.
  - unfold undecodable, header_branch, on_data in *. rewrite Hv in *.
    destruct (useHeaders (options st)); [|done].
    destruct (headers m) as [hs|]; [|done].
    apply negb_true_iff, find_none in Hu.
    unfold on_data_headers. rewrite Hu. by rewrite emits_emits.
  - rewrite (on_data_envelope_branch m v st Hv Hb).
    assert (Hp : JSON_parse (Buffer_toString v) = None).
    { unfold undecodable, header_branch in *. rewrite Hv in Hu.
      destruct (useHeaders (options st)), (headers m); try done;
        by destruct (JSON_parse (Buffer_toString v)). }
    unfold on_data_envelope, deserialiseMessage. cbn [js_toString].
    by rewrite Hp.
Qed.


(** C6 (as amended).  In header mode the data handler emits the value of
    a message that has a value and a [channel] header as the bytes it
    came in, on the channel the header names.  It is the wrapper that
    [subscribe] registered for a listener that parses them: the
    listeners of the channel, in registration order and until one
    throws, are called with the parsed value; when the value is not
    JSON text the first wrapper raises a [SyntaxError] and no listener
    is called.  With nobody listening the message is dropped, except
    that on the channel named [error] the emitter raises. *)
Theorem header_mode_delivery
    (st : KafkaPubSub) (m : message) (v : Buffer) (hs : list header)
    (h : header) (c : Buffer) :
  useHeaders (options st) = true ->
  value m = Some v ->
  headers m = Some hs ->
  find has_channel hs = Some h ->
  assoc "channel" h = Some c ->
  on_data m st
  = let received := Log LDebug "Received %s" (Buffer_toString v) in
    match ee st !! Buffer_toString c with
    | Some fs =>
        match JSON_parse (Buffer_toString v) with
        | Some j =>
            (emits (received :: fst (hand_over fs (VJson j))) st,
             snd (hand_over fs (VJson j)))
        | None =>
            (emits [received] st,
             match fs with [] => Normal tt | _ :: _ => Throw SyntaxError end)
        end
    | None =>
        (emits [received] st,
         if String.eqb (Buffer_toString c) "error"
         then Throw UnhandledErrorEvent else Normal tt)
    end.
Proof.
  intros Hmode Hv Hhs Hh Hc. unfold on_data, on_data_headers.
  rewrite Hv, Hmode, Hhs, Hh, Hc. cbn zeta.
  destruct (JSON_parse (Buffer_toString v)) as [j|] eqn:Hp.
  - rewrite (emit_hand_over _ _ (VJson j)); [done|].
    intros g. by rewrite internalMessage_headers, Hp.
  - unfold emit. cbn [ee emits options].
    destruct (ee st !! Buffer_toString c) as [[|f fs]|].
    + cbn. by rewrite emits_emits.
    + cbn [call_all]. rewrite internalMessage_headers, Hp by done.
      by rewrite emits_emits.
    + by destruct (String.eqb (Buffer_toString c) "error").
Qed.

Lemma emit_adds_calls name arg st :
  exists es, fst (emit name arg st) = emits es st /\ forallb is_called es = true.
Proof.
  unfold emit. destruct (ee st !! name) as [fs|].
  - pose proof (call_all_called (options st) fs arg) as Hc.
    destruct (call_all (options st) fs arg) as [es c]. by exists es.
  - exists []. rewrite emits_nil. by destruct (String.eqb name "error").
Qed.

Lemma emit_on_adds_calls channel arg st :
  exists es,
    fst (emit_on channel arg st) = emits es st /\ forallb is_called es = true.
Proof.
  assert (Hnone : exists es, st = emits es st /\ forallb is_called es = true).
  { exists []. by rewrite emits_nil. }
  assert (Hk : exists es,
             fst match to_property_key channel with
                 | Throw e => (st, Throw e)
                 | Normal name =>
                     match ee st !! name with
                     | Some _ => emit name arg st
                     | None => (st, Normal tt)
                     end
                 end = emits es st /\ forallb is_called es = true).
  { destruct (to_property_key channel) as [name|]; [|exact Hnone].
    destruct (ee st !! name); [apply emit_adds_calls|exact Hnone]. }
  unfold emit_on. destruct channel as [|b|[]]; try exact Hk.
  apply emit_adds_calls.
Qed.

(** C10 (as amended).  With [useHeaders] on, a message that has a value
    and no headers at all is not dropped with the missing-header
    warning: it is handled by the envelope branch.  Its value is parsed;
    a value that is not JSON text raises a [SyntaxError].  Of a parsed
    value other than [null], a [channel] property that is truthy names
    the channel the [payload] property is emitted on, and a value whose
    [channel] property is missing or falsy is emitted whole on the topic
    name.  Apart from the received text nothing is logged: the handler
    adds listener calls only.  (The statement also says what happens to
    the value [null]: reading its [channel] raises a [TypeError].) *)
Theorem headerless_message_takes_envelope_branch
    (st : KafkaPubSub) (m : message) (v : Buffer) :
  useHeaders (options st) = true ->
  headers m = None ->
  value m = Some v ->
  let st1 := emits [Log LDebug "Received %s" (Buffer_toString v)] st in
  on_data m st = on_data_envelope v st1
  /\ on_data m st
     = match JSON_parse (Buffer_toString v) with
       | None => (st1, Throw SyntaxError)
       | Some JNull => (st1, Throw TypeError)
       | Some parsed =>
           match field "channel" parsed with
           | Some c =>
               if truthy (VJson c)
               then emit_on (VJson c)
                      (match field "payload" parsed with
                       | Some p => VJson p
                       | None => VUndefined
                       end) st1
               else emit (topic (options st)) (VJson parsed) st1
           | None => emit (topic (options st)) (VJson parsed) st1
           end
       end
  /\ exists es,
       fst (on_data m st) = emits es st1 /\ forallb is_called es = true.
Proof.
  intros Hmode Hhs Hv st1.
  assert (H1 : on_data m st = on_data_envelope v st1).
  { unfold on_data. by rewrite Hv, Hmode, Hhs. }
  assert (H2 : on_data_envelope v st1
     = match JSON_parse (Buffer_toString v) with
       | None => (st1, Throw SyntaxError)
       | Some JNull => (st1, Throw TypeError)
       | Some parsed =>
           match field "channel" parsed with
           | Some c =>
               if truthy (VJson c)
               then emit_on (VJson c)
                      (match field "payload" parsed with
                       | Some p => VJson p
                       | None => VUndefined
                       end) st1
               else emit (topic (options st)) (VJson parsed) st1
           | None => emit (topic (options st)) (VJson parsed) st1
           end
       end).
  { unfold on_data_envelope, deserialiseMessage. cbn [js_toString].
    destruct (JSON_parse (Buffer_toString v)) as [parsed|]; [|done].
    destruct parsed; try reflexivity;
      unfold get_prop; destruct (field "channel" _); reflexivity. }
  split; [exact H1|]. split; [by rewrite H1|].
  rewrite H1, H2.
  assert (Hnone : exists es, st1 = emits es st1 /\ forallb is_called es = true).
  { exists []. by rewrite emits_nil. }
  destruct (JSON_parse (Buffer_toString v)) as [parsed|]; [|exact Hnone].
  destruct parsed; try exact Hnone;
    destruct (field "channel" _) as [c|]; try apply emit_adds_calls;
    destruct (truthy (VJson c));
    first [apply emit_adds_calls|apply emit_on_adds_calls].
Qed.

(** ** Dispatch *)

Lemma call_all_reached o fs arg :
  call_all o fs arg
  = (List.flat_map (fun f => fst (internalMessage o f arg)) (reached o arg fs),
     completes o arg fs).
Proof.
  induction fs as [|f fs IH]; [done|]. cbn [call_all reached completes].
  destruct (internalMessage o f arg) as [es [[]|e]] eqn:Hf; cbn [snd returns].
  - rewrite IH. cbn [List.flat_map]. by rewrite Hf.
  - cbn [List.flat_map]. rewrite Hf. cbn [fst]. by rewrite app_nil_r.
Qed.

(** C7 (as amended).  An [emit] on a channel calls the listeners
    registered for it in registration order, up to and including the
    first one whose call raises; the exception ends the dispatch and is
    the completion of the [emit].  A new subscription is registered
    after the ones already there. *)
Theorem dispatch_until_first_throw
    (st : KafkaPubSub) (name : string) (arg : jsval) (fs : list closure) :
  ee st !! name = Some fs ->
  emit name arg st
  = (emits
       (List.flat_map (fun f => fst (internalMessage (options st) f arg))
          (reached (options st) arg fs)) st,
     completes (options st) arg fs)
  /\ forall call cb,
       ee (subscribe_resume call name cb st) !! name
       = Some (fs ++ [{| fn_id := subIdCounter st + 1; fn_cb := cb |}]).
Proof.
  intros Hfs. split.
  - unfold emit. by rewrite Hfs, call_all_reached.
  - intros call cb. rewrite subscribe_resume_listeners.
    unfold listeners. by rewrite Hfs.
Qed.

(** ** [unsubscribe] *)

(** C9.  [unsubscribe] with an id that is not in [subscriptions] raises
    (the destructuring of [undefined] is a [TypeError]) and changes
    nothing: every field of the engine, the registry and the listeners
    among them, is as before, and nothing is logged. *)
Theorem unsubscribe_unknown (st : KafkaPubSub) (index : Z) :
  subscriptions st !! index = None ->
  unsubscribe index st = (st, Throw TypeError).
Proof. intros H. unfold unsubscribe. by rewrite H. Qed.

(** ** [close] *)

Lemma first_error_app (a b : list (side * option exn)) :
  first_error (a ++ b)
  = match first_error a with Some e => Some e | None => first_error b end.
Proof. induction a as [|[s [e|]] a IH]; cbn; done. Qed.

Lemma acked_app s (a b : list (side * option exn)) :
  acked s (a ++ b) = acked s a || acked s b.
Proof. apply existsb_app. Qed.

Lemma report_of_app s (a b : list (side * option exn)) :
  report_of s (a ++ b)
  = match report_of s a with Pending => report_of s b | p => p end.
Proof.
  unfold report_of. induction a as [|[s' e] a IH]; cbn [app find fst].
  - done.
  - destruct (side_eqb s s'); [by destruct e|exact IH].
Qed.

(** Without a failure among the reports, the disconnect of a side has
    succeeded exactly when it has reported. *)
Lemma report_of_acked s (h : list (side * option exn)) :
  first_error h = None -> is_fulfilled (report_of s h) = acked s h.
Proof.
  unfold report_of, acked.
  induction h as [|[s' [e|]] h IH]; cbn [first_error find existsb fst];
    [done|done|].
  intros Hh. destruct (side_eqb s s'); [done|by apply IH].
Qed.

Lemma on_settles_promises s p c :
  disconnected (on_settles s p c) = disconnected c
  /\ all (on_settles s p c) = all c.
Proof.
  unfold on_settles. by destruct (awaited c s && negb (is_pending p)).
Qed.

Lemma on_disconnect_executors s err c :
  awaited (on_disconnect s err c) = awaited c
  /\ attempted (on_disconnect s err c) = attempted c.
Proof.
  unfold on_disconnect.
  by destruct (attempted c s && is_pending (disconnected c s)).
Qed.

(** The promise of [close] after the reports [h], when every event comes
    as [close] expects it. *)
Lemma close_follows_reports (evs : list close_event) :
  forall (c : closing) (h : list (side * option exn)),
    (forall s, disconnected c s = report_of s h) ->
    all c = match first_error h with
            | Some e => Rejected e
            | None =>
                if acked ProducerSide h && acked ConsumerSide h
                then Fulfilled else Pending
            end ->
    orderly c evs = true ->
    all (fold_left on_close_event evs c)
    = match first_error (h ++ acks_of evs) with
      | Some e => Rejected e
      | None =>
          if acked ProducerSide (h ++ acks_of evs)
             && acked ConsumerSide (h ++ acks_of evs)
          then Fulfilled else Pending
      end.
Proof.
  induction evs as [|[s p|s err] evs IH]; intros c h Hd Hall Hord;
    cbn [fold_left acks_of on_close_event orderly] in *.
  - by rewrite app_nil_r.
  - apply andb_true_iff in Hord as [_ Hord].
    destruct (on_settles_promises s p c) as [Hd' Hall'].
    apply IH; [intros s'; by rewrite Hd'|by rewrite Hall'|exact Hord].
  - apply andb_true_iff in Hord as [Hnow Hord].
    replace (h ++ (s, err) :: acks_of evs)
      with ((h ++ [(s, err)]) ++ acks_of evs) by (by rewrite <- app_assoc).
    apply andb_true_iff in Hnow as [Ha Hp].
    assert (Hs : report_of s h = Pending).
    { rewrite <- Hd. by destruct (disconnected c s). }
    assert (Hd1 : forall s', disconnected (on_disconnect s err c) s'
                             = report_of s' (h ++ [(s, err)])).
    { intros s'. unfold on_disconnect. rewrite Ha, Hp. cbn [andb disconnected].
      rewrite report_of_app.
      destruct s, s'; cbn [side_eqb]; rewrite ?Hs, ?Hd;
        try (by destruct err);
        match goal with |- ?x = _ => by destruct x end. }
    apply IH; [exact Hd1| |exact Hord].
    pose proof (report_of_acked ProducerSide (h ++ [(s, err)])) as HP.
    pose proof (report_of_acked ConsumerSide (h ++ [(s, err)])) as HC.
    rewrite <- !Hd1 in HP, HC.
    rewrite first_error_app in *.
    unfold on_disconnect in *. rewrite Ha, Hp in *.
    cbn [andb all disconnected] in *. rewrite Hall.
    destruct (first_error h) as [e|] eqn:Hfe; [done|].
    assert (Hno : acked s h = false).
    { rewrite <- (report_of_acked s h Hfe). by rewrite Hs. }
    assert (Hboth : acked ProducerSide h && acked ConsumerSide h = false).
    { destruct s; rewrite Hno; [done|apply andb_false_r]. }
    rewrite Hboth. destruct err as [e|]; cbn [first_error] in *; [done|].
    by rewrite HP, HC.
Qed.

(** A connection that [close] does not await does not come up for it. *)
Lemma not_awaited s (evs : list close_event) :
  forall c, awaited c s = false -> orderly c evs = true ->
            comes_up s evs = false.
Proof.
  unfold comes_up.
  induction evs as [|[s' p|s' err] evs IH]; intros c Hs Hord;
    cbn [existsb orderly] in *; [done| |].
  - apply andb_true_iff in Hord as [Hnow Hord].
    apply andb_true_iff in Hnow as [Ha Hp].
    rewrite (IH (on_settles s' p c)); [|
      unfold on_settles; rewrite Ha, Hp; cbn;
      by destruct (side_eqb s' s)|exact Hord].
    destruct s, s', p; cbn; try done; congruence.
  - apply andb_true_iff in Hord as [_ Hord].
    apply (IH (on_disconnect s' err c)); [|exact Hord].
    by rewrite (proj1 (on_disconnect_executors s' err c)).
Qed.

(** The sides on which [close] calls [disconnect]. *)
Lemma close_attempts s (evs : list close_event) :
  forall c,
    (awaited c s = true -> attempted c s = false) ->
    orderly c evs = true ->
    attempted (fold_left on_close_event evs c) s
    = attempted c s || (awaited c s && comes_up s evs).
Proof.
  induction evs as [|[s' p|s' err] evs IH]; intros c Hex Hord;
    cbn [fold_left on_close_event orderly] in *.
  - unfold comes_up. cbn. by rewrite andb_false_r, orb_false_r.
  - apply andb_true_iff in Hord as [Hnow Hord].
    apply andb_true_iff in Hnow as [Ha Hp].
    assert (Hc : awaited (on_settles s' p c) s
                 = (if side_eqb s' s then false else awaited c s)
                 /\ attempted (on_settles s' p c) s
                    = (if side_eqb s' s then is_fulfilled p else attempted c s)).
    { unfold on_settles. by rewrite Ha, Hp. }
    destruct Hc as [Haw Hat].
    rewrite IH; [|rewrite Haw, Hat; destruct (side_eqb s' s); done|exact Hord].
    rewrite Haw, Hat. unfold comes_up at 2. cbn [existsb].
    fold (comes_up s evs).
    destruct (side_eqb s' s) eqn:Hss.
    + assert (s' = s) as -> by (by destruct s, s').
      rewrite (not_awaited s evs (on_settles s p c)); [| |exact Hord].
      * rewrite Ha, (Hex Ha). destruct s, p; done.
      * unfold on_settles. rewrite Ha, Hp. cbn. by rewrite Hss.
    + replace (match p with Fulfilled => side_eqb s s' | _ => false end)
        with false; [done|]. destruct s, s', p; done.
  - apply andb_true_iff in Hord as [_ Hord].
    destruct (on_disconnect_executors s' err c) as [Haw Hat].
    rewrite IH; [by rewrite Haw, Hat|by rewrite Haw, Hat|exact Hord].
Qed.

(** C4 (as amended).  [close] calls [disconnect] on a side once the
    connection promise of that side is fulfilled: at once if it is
    fulfilled when [close] is called, later if it is pending then and is
    fulfilled afterwards, and not at all otherwise.  Its own promise is
    fulfilled only after both disconnects have reported success, and it
    is rejected with the first failure a disconnect reports: it does not
    wait for the other disconnect, whose error, if any, is not part of
    the result.  (A connection promise settles once, and a disconnect
    reports once, after it was called: [orderly].) *)
Theorem close_rejects_with_first_failure
    (st : KafkaPubSub) (evs : list close_event) :
  orderly (snd (close st)) evs = true ->
  all (close_after evs st)
  = match first_error (acks_of evs) with
    | Some e => Rejected e
    | None =>
        if acked ProducerSide (acks_of evs) && acked ConsumerSide (acks_of evs)
        then Fulfilled else Pending
    end
  /\ (forall s,
        attempted (close_after evs st) s
        = attempts (handle s st) || (awaits (handle s st) && comes_up s evs))
  /\ trace (fst (close st))
     = trace st
       ++ (if attempts (producer st) then [Disconnect ProducerSide] else [])
       ++ (if attempts (consumer st) then [Disconnect ConsumerSide] else []).
Proof.
  intros Hord. split; [|split; [|reflexivity]].
  - apply (close_follows_reports evs (snd (close st)) []); done.
  - intros s. unfold close_after.
    rewrite (close_attempts s evs (snd (close st))); [done| |exact Hord].
    cbn. by destruct (handle s st) as [[]|].
Qed.

(** ** A topic the broker does not know *)

Lemma includes_false_on_ready s topics st :
  includes topics (topic (options st)) = false ->
  handle s st = Some Pending ->
  handle s (on_ready s topics st) = Some (Rejected topic_not_found)
  /\ exists es, trace (on_ready s topics st)
                = trace st ++ es /\ In (Disconnect s) es.
Proof.
  intros Hinc Hs. unfold on_ready. rewrite Hinc.
  set (st1 := emits _ (emits _ st)).
  assert (H1 : handle s st1 = Some Pending) by (by destruct s).
  unfold settle_handle. rewrite H1.
  set (st2 := set_waiting s [] (set_handle s (Rejected topic_not_found) st1)).
  assert (Hrej : forall ks st',
             handle s st' = Some (Rejected topic_not_found) ->
             (exists es, trace st' = trace st ++ es /\ In (Disconnect s) es) ->
             handle s (fold_left (fun acc k => resume k (Rejected topic_not_found) acc)
                         ks st') = Some (Rejected topic_not_found)
             /\ exists es, trace (fold_left
                             (fun acc k => resume k (Rejected topic_not_found) acc)
                             ks st') = trace st ++ es /\ In (Disconnect s) es).
  { induction ks as [|k ks IH]; intros st' Hh Ht; [done|]. cbn [fold_left].
    apply IH; destruct k; cbn; try done; by destruct s. }
  rewrite resume_all_rejected. apply Hrej.
  - by destruct s.
  - exists [Log LInfo "Connected, found topics: %s" (String.concat "," topics);
            Log LError "Could not find requested topic %s" (topic (options st));
            Disconnect s].
    split; [|cbn; tauto]. destruct s; cbn; by rewrite <- app_assoc.
Qed.

(** [publish] on an engine whose producer was rejected is rejected with
    the same reason. *)
Lemma publish_rejected call channel payload now st e :
  producer st = Some (Rejected e) ->
  settled (publish call channel payload now st)
  = settled st ++ [(call, RejectedWith e)].
Proof.
  intros Hp. unfold publish, createProducer. rewrite Hp.
  unfold await_on. cbn [handle]. by rewrite Hp.
Qed.

(** [subscribe] on an engine whose [consumer] field is set does not wait
    for the consumer and does not look at how its promise settled: the
    listener is registered and the call resolves with the next id. *)
Lemma subscribe_resolves_once_started call channel cb uuid st p :
  consumer st = Some p ->
  settled (subscribe call channel cb uuid st)
  = settled st ++ [(call, Resolved (subIdCounter st + 1))].
Proof.
  intros Hc. unfold subscribe, createConsumer. cbn [consumer emits].
  by rewrite Hc.
Qed.

(* ===================================================================== *)
(** * Part VIII.  Further properties of the engine                        *)
(* ===================================================================== *)

(** ** The registry *)

Lemma same_fn_sym f g : same_fn f g = same_fn g f.
Proof. unfold same_fn. apply Z.eqb_sym. Qed.

Lemma same_fn_refl f : same_fn f f = true.
Proof. unfold same_fn. apply Z.eqb_refl. Qed.

Lemma existsb_same_fn f l :
  existsb (same_fn f) l = true <-> exists g, In g l /\ fn_id g = fn_id f.
Proof.
  rewrite existsb_exists. unfold same_fn.
  split; intros (g & Hg & Hid); exists g; split; try done; lia.
Qed.

Lemma existsb_same_fn_false f l :
  existsb (same_fn f) l = false <-> forall g, In g l -> fn_id g <> fn_id f.
Proof.
  split.
  - intros Hf g Hg Hid.
    assert (existsb (same_fn f) l = true) by (apply existsb_same_fn; eauto).
    congruence.
  - intros Hall. destruct (existsb (same_fn f) l) eqn:He; [|done].
    apply existsb_same_fn in He as (g & Hg & Hid). by destruct (Hall g Hg).
Qed.

Lemma without_In f l g : In g (without f l) <-> In g l /\ fn_id g <> fn_id f.
Proof.
  unfold without. rewrite filter_In, negb_true_iff. unfold same_fn.
  split; intros [? ?]; split; try done; lia.
Qed.

Lemma without_cons f g l :
  without f (g :: l) = if same_fn f g then without f l else g :: without f l.
Proof. unfold without. cbn. by destruct (same_fn f g). Qed.

Lemma without_none f l : existsb (same_fn f) l = false -> without f l = l.
Proof.
  induction l as [|g l IH]; [done|]. rewrite without_cons. cbn [existsb].
  intros [Hg Hl]%orb_false_iff. by rewrite Hg, (IH Hl).
Qed.

Lemma distinct_without f l : distinct l = true -> distinct (without f l) = true.
Proof.
  induction l as [|g l IH]; [done|]. rewrite without_cons. cbn [distinct].
  intros [Hg Hl]%andb_true_iff. apply negb_true_iff in Hg.
  destruct (same_fn f g); cbn [distinct]; [by apply IH|].
  rewrite (IH Hl), andb_true_r. apply negb_true_iff, existsb_same_fn_false.
  intros h [Hh _]%without_In. by apply (proj1 (existsb_same_fn_false g l) Hg).
Qed.

Lemma distinct_snoc f l :
  distinct l = true -> existsb (same_fn f) l = false ->
  distinct (l ++ [f]) = true.
Proof.
  induction l as [|g l IH]; [done|]. cbn.
  intros [Hg Hl]%andb_true_iff [Hfg Hfl]%orb_false_iff.
  rewrite (IH Hl Hfl), andb_true_r, existsb_app. cbn.
  apply negb_true_iff in Hg. by rewrite Hg, same_fn_sym, Hfg.
Qed.

(** On pairwise distinct listeners, [removeListener] removes the one
    listener with the identity of [f]. *)
Lemma remove_last_without f l :
  distinct l = true -> remove_last f l = without f l.
Proof.
  induction l as [|g l IH]; [done|]. cbn [remove_last distinct].
  rewrite without_cons.
  intros [Hg Hl]%andb_true_iff. apply negb_true_iff in Hg.
  destruct (existsb (same_fn f) l) eqn:Hf.
  - apply existsb_same_fn in Hf as (h & Hh & Hid).
    assert (Hfg : same_fn f g = false).
    { unfold same_fn. apply Z.eqb_neq. intros Heq.
      apply (proj1 (existsb_same_fn_false g l) Hg h Hh). lia. }
    rewrite Hfg. by rewrite (IH Hl).
  - rewrite (without_none f l Hf). by destruct (same_fn f g).
Qed.

Lemma remove_last_snoc f l :
  existsb (same_fn f) l = false -> remove_last f (l ++ [f]) = l.
Proof.
  induction l as [|g l IH]; cbn.
  - by rewrite same_fn_refl.
  - intros [Hg Hl]%orb_false_iff.
    rewrite existsb_app. cbn. by rewrite same_fn_refl, orb_true_r, (IH Hl).
Qed.

Lemma ids_upto_succ c : 0 <= c -> ids_upto (c + 1) = ids_upto c ++ [c + 1].
Proof.
  intros Hc. unfold ids_upto.
  replace (Z.to_nat (c + 1)) with (S (Z.to_nat c)) by lia.
  rewrite seq_S, map_app. cbn. do 2 f_equal. lia.
Qed.

Lemma resolved_ids_app a b :
  resolved_ids (a ++ b) = resolved_ids a ++ resolved_ids b.
Proof.
  induction a as [|[call []] a IH]; cbn; by rewrite ?IH.
Qed.

Lemma registry_ok_init o : registry_ok (init o).
Proof. repeat split; cbn; try done; intros *; by rewrite lookup_empty. Qed.

(** A state with the registry of a consistent state is consistent. *)
Lemma consistent_frame st st' :
  ee st' = ee st -> subscriptions st' = subscriptions st ->
  subIdCounter st' = subIdCounter st ->
  resolved_ids (settled st') = resolved_ids (settled st) ->
  consistent st -> consistent st'.
Proof.
  unfold consistent, registry_ok, listeners.
  intros -> -> -> ->. done.
Qed.

Lemma fresh_id st g name fs :
  registry_ok st -> ee st !! name = Some fs -> In g fs ->
  fn_id g <> subIdCounter st + 1.
Proof.
  intros (_ & Hsub & Hee) Hfs Hg.
  destruct (Hee _ _ Hfs) as (_ & _ & Hin).
  destruct (Hsub _ _ _ (Hin g Hg)) as (Hb & _). lia.
Qed.

Lemma fresh_in_listeners st name cb :
  registry_ok st ->
  existsb (same_fn {| fn_id := subIdCounter st + 1; fn_cb := cb |})
    (listeners name st) = false.
Proof.
  intros Hok. apply existsb_same_fn_false. intros g Hg. unfold listeners in Hg.
  destruct (ee st !! name) as [fs|] eqn:Hfs; [|done].
  by apply (fresh_id st g name fs).
Qed.

Lemma consistent_subscribe_resume call channel cb st :
  consistent st -> consistent (subscribe_resume call channel cb st).
Proof.
  intros [Hok Hids]. pose proof Hok as (Hc & Hsub & Hee).
  set (f := {| fn_id := subIdCounter st + 1; fn_cb := cb |}).
  assert (Hfresh : forall name,
             existsb (same_fn f) (listeners name st) = false).
  { intros name. by apply fresh_in_listeners. }
  split.
  - unfold registry_ok, listeners. cbn. fold f. unfold addListener.
    split; [lia|]. split.
    + intros id ch g. destruct (decide (id = subIdCounter st + 1)) as [->|Hne].
      * rewrite lookup_insert_eq. intros [= <- <-].
        rewrite lookup_insert_eq. cbn.
        rewrite existsb_app. cbn. rewrite same_fn_refl.
        split; [lia|]. split; [done|]. apply orb_true_r.
      * rewrite lookup_insert_ne by done. intros Hg.
        destruct (Hsub _ _ _ Hg) as (Hb & Hid & Hex).
        split; [lia|]. split; [done|].
        destruct (decide (ch = channel)) as [->|Hch].
        -- rewrite lookup_insert_eq. cbn. rewrite existsb_app.
           unfold listeners in Hex. by rewrite Hex.
        -- by rewrite lookup_insert_ne.
    + intros name fs. destruct (decide (name = channel)) as [->|Hch].
      * rewrite lookup_insert_eq. intros [= <-]. fold (listeners channel st).
        split; [by destruct (listeners channel st)|]. split.
        -- apply distinct_snoc; [|apply Hfresh]. unfold listeners.
           destruct (ee st !! channel) as [fs|] eqn:Hfs; [|done].
           by destruct (Hee _ _ Hfs) as (_ & ? & _).
        -- intros g [Hg|[<-|[]]]%in_app_or; [|by rewrite lookup_insert_eq].
           unfold listeners in Hg.
           destruct (ee st !! channel) as [fs|] eqn:Hfs; [|done].
           rewrite lookup_insert_ne by (by apply not_eq_sym, (fresh_id st g channel fs)).
           by destruct (Hee _ _ Hfs) as (_ & _ & Hin); apply Hin.
      * rewrite lookup_insert_ne by done. intros Hfs.
        destruct (Hee _ _ Hfs) as (Hne & Hd & Hin).
        split; [done|]. split; [done|]. intros g Hg.
        rewrite lookup_insert_ne by (by apply not_eq_sym, (fresh_id st g name fs)).
        by apply Hin.
  - cbn. rewrite resolved_ids_app, Hids. cbn. by rewrite ids_upto_succ.
Qed.

Lemma lookup_removeListener ch f (e : gmap string (list closure)) fs name :
  e !! ch = Some fs ->
  removeListener ch f e !! name
  = if decide (name = ch)
    then match remove_last f fs with [] => None | l => Some l end
    else e !! name.
Proof.
  intros Hfs. unfold removeListener. rewrite Hfs.
  destruct (decide (name = ch)) as [->|Hne].
  - destruct (remove_last f fs); [apply lookup_delete_eq|apply lookup_insert_eq].
  - destruct (remove_last f fs);
      [by apply lookup_delete_ne|by apply lookup_insert_ne].
Qed.

(** The listeners of every name after [removeListener]. *)
Lemma listeners_removeListener ch f (e : gmap string (list closure)) fs name :
  e !! ch = Some fs -> distinct fs = true ->
  default [] (removeListener ch f e !! name)
  = if decide (name = ch) then without f fs else default [] (e !! name).
Proof.
  intros Hfs Hd. rewrite (lookup_removeListener ch f e fs name Hfs).
  destruct (decide (name = ch)); [|done].
  rewrite (remove_last_without f fs Hd). by destruct (without f fs).
Qed.

(** A subscription of a well-formed registry has listeners on its
    channel. *)
Lemma subscription_listeners st id ch f :
  registry_ok st -> subscriptions st !! id = Some (ch, f) ->
  exists fs, ee st !! ch = Some fs /\ distinct fs = true /\ In f fs.
Proof.
  intros (_ & Hsub & Hee) Hf.
  destruct (Hsub _ _ _ Hf) as (_ & Hid & Hex). unfold listeners in Hex.
  destruct (ee st !! ch) as [fs|] eqn:Hfs; [|done]. exists fs.
  destruct (Hee _ _ Hfs) as (_ & Hd & Hin). split; [done|]. split; [done|].
  apply existsb_same_fn in Hex as (g & Hg & Hgid).
  pose proof (Hin g Hg) as Hlook. rewrite Hgid, Hid, Hf in Hlook.
  by injection Hlook as <-.
Qed.

Lemma consistent_unsubscribe index st :
  consistent st -> consistent (fst (unsubscribe index st)).
Proof.
  intros [Hok Hids]. unfold unsubscribe.
  destruct (subscriptions st !! index) as [[ch f]|] eqn:Hf; [|done].
  destruct (subscription_listeners st index ch f Hok Hf) as (fs & Hfs & Hd & Hin).
  pose proof Hok as (Hc & Hsub & Hee).
  destruct (Hsub _ _ _ Hf) as (_ & Hid & _).
  split; [|done]. unfold registry_ok, listeners. cbn [fst ee subscriptions subIdCounter].
  split; [done|]. split.
  - intros id ch0 g Hg.
    assert (Hne : id <> index) by (intros ->; by rewrite lookup_delete_eq in Hg).
    rewrite lookup_delete_ne in Hg by done.
    destruct (Hsub _ _ _ Hg) as (Hb & Hgid & Hex).
    split; [done|]. split; [done|].
    rewrite (listeners_removeListener ch f (ee st) fs ch0 Hfs Hd).
    destruct (decide (ch0 = ch)) as [->|]; [|done].
    unfold listeners in Hex. rewrite Hfs in Hex. cbn in Hex.
    apply existsb_same_fn in Hex as (h & Hh & Hhid).
    apply existsb_same_fn. exists h. split; [|done].
    apply without_In. split; [done|]. lia.
  - intros name l. rewrite (lookup_removeListener ch f (ee st) fs name Hfs).
    destruct (decide (name = ch)) as [->|Hne].
    + rewrite (remove_last_without f fs Hd).
      destruct (without f fs) as [|h l'] eqn:Hw; [done|]. intros [= <-].
      split; [done|]. split; [rewrite <- Hw; by apply distinct_without|].
      intros g Hg. rewrite <- Hw in Hg. apply without_In in Hg as [Hg Hgid].
      rewrite lookup_delete_ne by lia.
      by destruct (Hee _ _ Hfs) as (_ & _ & Hall); apply Hall.
    + intros Hl. destruct (Hee _ _ Hl) as (Hnil & Hdl & Hall).
      split; [done|]. split; [done|]. intros g Hg.
      rewrite lookup_delete_ne; [by apply Hall|].
      intros Heq. pose proof (Hall g Hg) as Hlook.
      rewrite <- Heq, Hf in Hlook. by injection Hlook as -> _.
Qed.

Ltac framed := eapply consistent_frame; [..|eassumption]; try reflexivity.

Lemma consistent_emits es st : consistent st -> consistent (emits es st).
Proof. intros H. framed. Qed.

Lemma consistent_set_handle s p st :
  consistent st -> consistent (set_handle s p st).
Proof. intros H. framed. Qed.

Lemma consistent_set_waiting s l st :
  consistent st -> consistent (set_waiting s l st).
Proof. intros H. framed. Qed.

Lemma consistent_reject call e st :
  consistent st -> consistent (settle call (RejectedWith e) st).
Proof. intros H. framed. cbn. rewrite resolved_ids_app. apply app_nil_r. Qed.

Lemma consistent_void call st :
  consistent st -> consistent (settle call ResolvedVoid st).
Proof. intros H. framed. cbn. rewrite resolved_ids_app. apply app_nil_r. Qed.

#[local] Hint Resolve consistent_emits consistent_set_handle
  consistent_set_waiting consistent_reject consistent_void
  consistent_subscribe_resume consistent_unsubscribe : registry.

Lemma consistent_resume k p st : consistent st -> consistent (resume k p st).
Proof.
  destruct p, k; cbn [resume]; unfold publish_resume; auto with registry.
Qed.

Lemma consistent_finish k p st : consistent st -> consistent (finish k p st).
Proof.
  destruct p, k; cbn [finish]; unfold publish_produce; auto with registry.
Qed.

Lemma consistent_fold (f : KafkaPubSub -> suspended -> KafkaPubSub) ks st :
  (forall st' k, consistent st' -> consistent (f st' k)) ->
  consistent st -> consistent (fold_left f ks st).
Proof.
  intros Hf. revert st. induction ks as [|k ks IH]; intros st H; [done|].
  cbn [fold_left]. by apply IH, Hf.
Qed.

Lemma consistent_resume_all p ks st :
  consistent st -> consistent (resume_all ks p st).
Proof.
  intros H. unfold resume_all.
  apply consistent_fold; [intros st' k; apply consistent_finish|].
  apply consistent_fold; [intros st' k; apply consistent_resume|exact H].
Qed.

#[local] Hint Resolve consistent_resume consistent_resume_all : registry.

Lemma consistent_await_on w k st :
  consistent st -> consistent (await_on w k st).
Proof.
  unfold await_on. destruct w as [s|]; [|auto with registry].
  destruct (handle s st) as [[]|]; auto with registry.
Qed.

Lemma consistent_settle_handle s p st :
  consistent st -> consistent (settle_handle s p st).
Proof.
  unfold settle_handle. destruct (handle s st) as [[]|]; auto with registry.
Qed.

#[local] Hint Resolve consistent_await_on consistent_settle_handle : registry.

Lemma consistent_on_ready s topics st :
  consistent st -> consistent (on_ready s topics st).
Proof.
  unfold on_ready.
  destruct (includes topics (topic (options st))); [destruct s|];
    auto 6 with registry.
Qed.

(** The data handler only adds to the trace. *)
Lemma on_data_emits m st : exists es, fst (on_data m st) = emits es st.
Proof.
  assert (Hnil : exists es, st = emits es st).
  { exists []. by rewrite emits_nil. }
  unfold on_data. destruct (value m) as [v|]; [|exact Hnil].
  set (st1 := emits _ st).
  assert (H1 : forall name arg, exists es, fst (emit name arg st1) = emits es st).
  { intros name arg. destruct (emit_adds_calls name arg st1) as (es & -> & _).
    unfold st1. rewrite emits_emits. eauto. }
  assert (H2 : forall c arg, exists es, fst (emit_on c arg st1) = emits es st).
  { intros c arg. destruct (emit_on_adds_calls c arg st1) as (es & -> & _).
    unfold st1. rewrite emits_emits. eauto. }
  assert (H0 : exists es, st1 = emits es st) by (unfold st1; eauto).
  assert (He : exists es, fst (on_data_envelope v st1) = emits es st).
  { unfold on_data_envelope.
    destruct (deserialiseMessage (VBuffer v)) as [parsed|]; [|exact H0].
    destruct (get_prop parsed "channel") as [c|]; [|exact H0].
    destruct (truthy c); [|apply H1].
    destruct (get_prop parsed "payload"); [apply H2|exact H0]. }
  destruct (useHeaders (options st)); [|exact He].
  destruct (headers m) as [hs|]; [|exact He].
  unfold on_data_headers. destruct (find has_channel hs) as [h|].
  - destruct (assoc "channel" h); [apply H1|exact H0].
  - cbn [fst]. unfold st1. rewrite emits_emits. eauto.
Qed.

Lemma consistent_step e st : consistent st -> consistent (step st e).
Proof.
  intros H.
  destruct e as [call channel payload now|call channel cb uuid|index
                |s topics|call err|m]; cbn [step].
  - unfold publish, createProducer.
    destruct (producer st); auto with registry.
  - unfold subscribe, createConsumer. cbn [consumer emits].
    destruct (consumer st); auto 6 with registry.
  - auto with registry.
  - destruct (handle s st); [by apply consistent_on_ready|done].
  - unfold on_delivery. destruct err; auto with registry.
  - destruct (on_data_emits m st) as [es ->]. auto with registry.
Qed.

Lemma consistent_run es st : consistent st -> consistent (run es st).
Proof.
  revert st. induction es as [|e es IH]; intros st H; [done|].
  cbn [run fold_left]. by apply IH, consistent_step.
Qed.

Lemma consistent_init o : consistent (init o).
Proof. split; [apply registry_ok_init|done]. Qed.

(** X1.  Along every run of an engine in which nobody subscribes to the
    channels named [newListener] and [removeListener], and as long as the
    counter of subscriptions has not passed 2^53, the registry and the
    emitter agree: every subscription id lies between 1 and
    [subIdCounter] and its listener is registered on its channel; the
    listeners of a channel are pairwise distinct, never an empty list,
    and each has its registry entry. *)
Theorem registry_agrees_with_emitter (o : IKafkaOptions) (es : list event) :
  forallb ordinary es = true ->
  subIdCounter (run es (init o)) <= max_safe_count ->
  registry_ok (run es (init o)).
Proof. intros _ _. apply (consistent_run es (init o)), consistent_init. Qed.

(** X2.  Along every run in which nobody subscribes to the channels
    named [newListener] and [removeListener], and as long as the counter
    of subscriptions has not passed 2^53, the ids that [subscribe] calls
    have resolved with are 1, 2, 3, ... up to [subIdCounter], in the
    order in which the calls completed: an id is never handed out twice,
    whatever has been unsubscribed in between. *)
Theorem subscription_ids_count_up (o : IKafkaOptions) (es : list event) :
  forallb ordinary es = true ->
  subIdCounter (run es (init o)) <= max_safe_count ->
  resolved_ids (settled (run es (init o)))
  = ids_upto (subIdCounter (run es (init o))).
Proof. intros _ _. apply (consistent_run es (init o)), consistent_init. Qed.

(** X3.  On every engine reached by a run in which nobody subscribes to
    the channels named [newListener] and [removeListener], and whose
    counter of subscriptions is below 2^53, subscribing and then
    unsubscribing the id just handed out puts the emitter and the
    registry back as they were; only the counter keeps the id spent. *)
Theorem subscribe_unsubscribe_roundtrip
    (o : IKafkaOptions) (es : list event) (call : Z) (channel : string)
    (cb : callback) :
  forallb ordinary es = true ->
  subIdCounter (run es (init o)) < max_safe_count ->
  let st := run es (init o) in
  let st1 := subscribe_resume call channel cb st in
  let st2 := fst (unsubscribe (subIdCounter st + 1) st1) in
  snd (unsubscribe (subIdCounter st + 1) st1) = Normal tt
  /\ ee st2 = ee st
  /\ subscriptions st2 = subscriptions st
  /\ subIdCounter st2 = subIdCounter st + 1.
Proof.
  intros _ _ st st1 st2.
  assert (Hok : registry_ok st)
    by apply (consistent_run es (init o)), consistent_init.
  set (f := {| fn_id := subIdCounter st + 1; fn_cb := cb |}).
  assert (Hnew : subscriptions st !! (subIdCounter st + 1) = None).
  { destruct Hok as (_ & Hsub & _).
    destruct (subscriptions st !! (subIdCounter st + 1)) as [[ch g]|] eqn:Hg;
      [|done].
    destruct (Hsub _ _ _ Hg) as (? & _). lia. }
  assert (Hfresh : existsb (same_fn f) (listeners channel st) = false).
  { by apply fresh_in_listeners. }
  unfold st2, st1, unsubscribe, subscribe_resume.
  cbn [settle subscriptions ee subIdCounter]. rewrite lookup_insert_eq.
  cbn [fst snd ee subscriptions subIdCounter]. fold f.
  split; [done|]. split; [|split; [|done]].
  - unfold removeListener, addListener. rewrite lookup_insert_eq.
    fold (listeners channel st). rewrite (remove_last_snoc f _ Hfresh).
    unfold listeners in *.
    destruct (ee st !! channel) as [fs|] eqn:Hfs; cbn [default].
    + destruct Hok as (_ & _ & Hee). destruct (Hee _ _ Hfs) as (Hne & _).
      destruct fs as [|g fs]; [done|]. unfold id.
      rewrite insert_insert_eq. by apply insert_id.
    + by apply delete_insert_id.
  - by apply delete_insert_id.
Qed.

(** X4.  On every engine reached by a run in which nobody subscribes to
    the channels named [newListener] and [removeListener], and whose
    counter of subscriptions has not passed 2^53, [unsubscribe] of a
    subscription removes its registry entry and its listener, and
    nothing else: the listeners of its channel are the others, in their
    order; the listeners of every other channel are untouched; the
    listener is no longer among those an [emit] reaches; and a second
    [unsubscribe] of the same id raises. *)
Theorem unsubscribe_removes_its_listener
    (o : IKafkaOptions) (es : list event) (id : Z) (ch : string) (f : closure) :
  forallb ordinary es = true ->
  subIdCounter (run es (init o)) <= max_safe_count ->
  subscriptions (run es (init o)) !! id = Some (ch, f) ->
  let st := run es (init o) in
  let st' := fst (unsubscribe id st) in
  snd (unsubscribe id st) = Normal tt
  /\ subscriptions st' = delete id (subscriptions st)
  /\ (forall name,
        listeners name st'
        = if decide (name = ch) then without f (listeners ch st)
          else listeners name st)
  /\ existsb (same_fn f) (listeners ch st') = false
  /\ unsubscribe id st' = (st', Throw TypeError).
Proof.
  intros _ _ Hf st st'. change (subscriptions st !! id = Some (ch, f)) in Hf.
  assert (Hok : registry_ok st)
    by apply (consistent_run es (init o)), consistent_init.
  destruct (subscription_listeners st id ch f Hok Hf) as (fs & Hfs & Hd & Hin).
  assert (Hl : forall name,
             listeners name st'
             = if decide (name = ch) then without f (listeners ch st)
               else listeners name st).
  { intros name. unfold st', unsubscribe, listeners. rewrite Hf.
    cbn [fst ee]. rewrite (listeners_removeListener ch f _ fs name Hfs Hd).
    by rewrite Hfs. }
  unfold st', unsubscribe in *. rewrite Hf in *.
  cbn [fst snd subscriptions] in *.
  split; [done|]. split; [done|]. split; [exact Hl|]. split.
  - rewrite Hl, decide_True by done. apply existsb_same_fn_false.
    intros g [_ Hg]%without_In. done.
  - by rewrite lookup_delete_eq.
Qed.

(** ** From [publish] to the listeners *)


(** X6.  In header mode the value of a message is parsed by the
    listeners' wrappers, not by the data handler.  A message with a
    [channel] header whose value is not JSON text raises a
    [SyntaxError] when somebody listens on the channel of its header,
    and no listener is called.  When nobody listens there the handler
    returns as for any other message, the text never parsed; on the
    channel named [error] that means that the emitter raises. *)
Theorem header_mode_parses_on_delivery
    (st : KafkaPubSub) (m : message) (v : Buffer) (hs : list header)
    (h : header) (c : Buffer) :
  useHeaders (options st) = true ->
  value m = Some v ->
  headers m = Some hs ->
  find has_channel hs = Some h ->
  assoc "channel" h = Some c ->
  JSON_parse (Buffer_toString v) = None ->
  on_data m st
  = (emits [Log LDebug "Received %s" (Buffer_toString v)] st,
     match ee st !! Buffer_toString c with
     | Some (_ :: _) => Throw SyntaxError
     | Some [] => Normal tt
     | None =>
         if String.eqb (Buffer_toString c) "error"
         then Throw UnhandledErrorEvent else Normal tt
     end).
Proof.
  intros Hmode Hv Hhs Hh Hc Hp. unfold on_data, on_data_headers.
  rewrite Hv, Hmode, Hhs, Hh, Hc. unfold emit. cbn [ee emits options].
  destruct (ee st !! Buffer_toString c) as [[|f fs]|].
  - cbn. by rewrite emits_emits.
  - cbn [call_all]. rewrite internalMessage_headers, Hp by done.
    by rewrite emits_emits.
  - by destruct (String.eqb (Buffer_toString c) "error").
Qed.

(** ** Connections over time *)

Lemma step_keeps_other_side e st s :
  creates s e = false ->
  started s (step st e) = started s st /\ created s (step st e) = created s st.
Proof.
  intros Hcr.
  destruct e as [call channel payload now|call channel cb uuid|index
                |s' topics|call err|m]; cbn [step].
  - destruct s; [done|]. unfold publish.
    pose proof (createProducer_conn st ConsumerSide) as Hc. cbn zeta in Hc.
    destruct (createProducer st) as [st1 w]. cbn [fst] in Hc.
    destruct (keeps_await_on w (KPublish call channel payload now) st1
                ConsumerSide) as [-> ->].
    exact Hc.
  - destruct s; [|done]. unfold subscribe.
    set (st0 := emits _ st).
    assert (H0 : keeps st st0) by no_new.
    pose proof (createConsumer_conn uuid st0 ProducerSide) as Hc.
    cbn zeta in Hc.
    destruct (createConsumer uuid st0) as [st1 w]. cbn [fst] in Hc.
    destruct (keeps_await_on w (KSubscribe call channel cb) st1 ProducerSide)
      as [-> ->].
    destruct (H0 ProducerSide) as [<- <-]. exact Hc.
  - apply keeps_unsubscribe.
  - destruct (handle s' st); [apply keeps_on_ready|done].
  - apply keeps_settle.
  - apply keeps_on_data.
Qed.

(** X7.  Connections are made on demand.  A run without a [publish] call
    leaves the producer as it was, and a run without a [subscribe] call
    leaves the consumer as it was: from a fresh engine, no client of
    that side is ever created and its field stays unset. *)
Theorem connection_on_demand
    (s : side) (st : KafkaPubSub) (es : list event) :
  forallb (fun e => negb (creates s e)) es = true ->
  started s (run es st) = started s st
  /\ created s (run es st) = created s st.
Proof.
  revert st. induction es as [|e es IH]; intros st; [done|].
  cbn [forallb]. intros [He Hes]%andb_true_iff.
  apply negb_true_iff in He.
  change (run (e :: es) st) with (run es (step st e)).
  destruct (IH (step st e) Hes) as [-> ->].
  by apply step_keeps_other_side.
Qed.

(** How each operation treats the connection promises. *)
Lemma same_handles_trans st1 st2 st3 :
  same_handles st1 st2 -> same_handles st2 st3 -> same_handles st1 st3.
Proof. intros H12 H23 s. by rewrite H23, H12. Qed.

Lemma same_handles_resume k p st : same_handles st (resume k p st).
Proof. intros s. by destruct p, k, s. Qed.

Lemma same_handles_finish k p st : same_handles st (finish k p st).
Proof. intros s. by destruct p, k, s. Qed.

Lemma same_handles_fold (f : KafkaPubSub -> suspended -> KafkaPubSub) ks st :
  (forall st' k, same_handles st' (f st' k)) ->
  same_handles st (fold_left f ks st).
Proof.
  intros Hf. revert st. induction ks as [|k ks IH]; intros st; [done|].
  cbn [fold_left]. eapply same_handles_trans; [apply Hf|apply IH].
Qed.

Lemma same_handles_resume_all p ks st : same_handles st (resume_all ks p st).
Proof.
  unfold resume_all.
  eapply same_handles_trans; apply same_handles_fold; intros st' k;
    [apply same_handles_resume|apply same_handles_finish].
Qed.

Lemma same_handles_await_on w k st : same_handles st (await_on w k st).
Proof.
  unfold await_on. destruct w as [s|]; [|apply same_handles_resume_all].
  destruct (handle s st) as [[]|]; try apply same_handles_resume_all; done.
Qed.

(** Settling touches a promise that is pending, and no other. *)
Lemma settle_handle_final s' p' st s p :
  handle s st = Some p -> is_pending p = false ->
  handle s (settle_handle s' p' st) = Some p.
Proof.
  intros Hs Hp. unfold settle_handle.
  destruct (handle s' st) as [[]|] eqn:Hs'; try done.
  rewrite same_handles_resume_all.
  destruct s, s'; cbn in *; try done; rewrite Hs in Hs';
    injection Hs' as ->; done.
Qed.

Lemma on_ready_final s' topics st s p :
  handle s st = Some p -> is_pending p = false ->
  handle s (on_ready s' topics st) = Some p.
Proof.
  intros Hs Hp. unfold on_ready.
  destruct (includes topics (topic (options st))); [destruct s'|];
    apply settle_handle_final; try done; by destruct s.
Qed.

Lemma step_final e st s p :
  handle s st = Some p -> is_pending p = false ->
  handle s (step st e) = Some p.
Proof.
  intros Hs Hp.
  destruct e as [call channel payload now|call channel cb uuid|index
                |s' topics|call err|m]; cbn [step].
  - unfold publish, createProducer.
    destruct (producer st) eqn:Hprod; rewrite same_handles_await_on; [done|].
    destruct s; cbn in *; [congruence|done].
  - unfold subscribe, createConsumer. cbn [consumer emits].
    destruct (consumer st) eqn:Hcons; rewrite same_handles_await_on;
      [by destruct s|].
    destruct s; cbn in *; [done|congruence].
  - unfold unsubscribe. destruct (subscriptions st !! index) as [[]|];
      by destruct s.
  - destruct (handle s' st); [by apply on_ready_final|done].
  - by destruct s.
  - destruct (on_data_emits m st) as [es ->]. by destruct s.
Qed.

(** X8.  A connection promise settles once.  Whatever calls and broker
    events follow, a producer or consumer that is ready stays ready and
    one whose creation was rejected stays rejected with the same reason:
    the engine never connects a second time. *)
Theorem settled_connection_is_final
    (s : side) (st : KafkaPubSub) (es : list event) (p : promise) :
  handle s st = Some p ->
  is_pending p = false ->
  handle s (run es st) = Some p.
Proof.
  revert st. induction es as [|e es IH]; intros st Hs Hp; [done|].
  cbn [run fold_left]. apply IH; [|done]. by apply step_final.
Qed.

(** ** The calls that wait for a connection *)

Lemma reject_all e ks st :
  let st' := fold_left (fun acc k => resume k (Rejected e) acc) ks st in
  settled st' = settled st ++ map (fun k => (call_of k, RejectedWith e)) ks
  /\ trace st' = trace st /\ ee st' = ee st
  /\ subscriptions st' = subscriptions st
  /\ subIdCounter st' = subIdCounter st
  /\ (forall s, waiting st' s = waiting st s)
  /\ (forall s, handle s st' = handle s st).
Proof.
  revert st. induction ks as [|k ks IH]; intros st; cbn [fold_left map].
  - by rewrite app_nil_r.
  - destruct (IH (resume k (Rejected e) st))
      as (-> & -> & -> & -> & -> & Hw & Hh).
    split_and!; try (by destruct k);
      try (destruct k; cbn; by rewrite <- app_assoc);
      intros s; rewrite ?Hw, ?Hh; by destruct k, s.
Qed.

(** X9.  When the [ready] event of a pending connection brings metadata
    without the configured topic, the client is disconnected, the promise
    is rejected, and every call that was waiting for the connection is
    rejected with the same reason, in the order the calls were made;
    nobody is left waiting and no listener is registered. *)
Theorem missing_topic_rejects_waiting_calls
    (s : side) (topics : list string) (st : KafkaPubSub) :
  handle s st = Some Pending ->
  includes topics (topic (options st)) = false ->
  let st' := on_ready s topics st in
  handle s st' = Some (Rejected topic_not_found)
  /\ waiting st' s = []
  /\ settled st'
     = settled st
       ++ map (fun k => (call_of k, RejectedWith topic_not_found))
            (waiting st s)
  /\ trace st'
     = trace st
       ++ [Log LInfo "Connected, found topics: %s" (String.concat "," topics);
           Log LError "Could not find requested topic %s" (topic (options st));
           Disconnect s]
  /\ ee st' = ee st
  /\ subscriptions st' = subscriptions st.
Proof.
  intros Hs Hinc st'. unfold st', on_ready. rewrite Hinc.
  set (st1 := emits _ (emits _ st)).
  assert (H1 : handle s st1 = Some Pending) by (by destruct s).
  unfold settle_handle. rewrite H1.
  set (st2 := set_waiting s [] (set_handle s (Rejected topic_not_found) st1)).
  rewrite resume_all_rejected.
  destruct (reject_all topic_not_found (waiting st1 s) st2)
    as (-> & -> & -> & -> & _ & Hw & Hh).
  rewrite Hw, Hh. repeat split; try (by destruct s).
  unfold st2, st1. cbn. by rewrite <- app_assoc.
Qed.

Lemma produced_by_app a b :
  produced_by (a ++ b) = produced_by a ++ produced_by b.
Proof.
  induction a as [|e a IH]; [done|]. destruct e; cbn; by rewrite ?IH.
Qed.

Lemma run_app es1 es2 st : run (es1 ++ es2) st = run es2 (run es1 st).
Proof. apply fold_left_app. Qed.

Lemma publishes_wait calls st :
  producer st = Some Pending ->
  let st' := run (map publish_event calls) st in
  producer st' = Some Pending
  /\ waiting st' ProducerSide = waiting st ProducerSide ++ map park calls
  /\ trace st' = trace st /\ options st' = options st.
Proof.
  revert st. induction calls as [|[[[call ch] payload] now] calls IH];
    intros st Hp; cbn [map].
  - cbn. by rewrite app_nil_r.
  - change (run (?e :: ?l) st) with (run l (step st e)).
    set (st1 := step st _).
    assert (H1 : producer st1 = Some Pending
                 /\ waiting st1 ProducerSide
                    = waiting st ProducerSide ++ [KPublish call ch payload now]
                 /\ trace st1 = trace st /\ options st1 = options st).
    { unfold st1. cbn [step publish_event]. unfold publish, createProducer.
      rewrite Hp. unfold await_on. cbn [handle]. by rewrite Hp. }
    destruct H1 as (Hp1 & Hw1 & Ht1 & Ho1).
    destruct (IH st1 Hp1) as (-> & -> & -> & ->).
    rewrite Hw1, Ht1, Ho1, <- app_assoc. done.
Qed.

Lemma announce_all calls st :
  fold_left (fun acc k => resume k Fulfilled acc) (map park calls) st
  = emits (map (announces (options st)) calls) st.
Proof.
  revert st. induction calls as [|[[[call ch] payload] now] calls IH];
    intros st; cbn [map fold_left].
  - by rewrite emits_nil.
  - rewrite IH. cbn [resume park]. unfold publish_resume.
    by rewrite emits_emits.
Qed.

Lemma hand_all calls st :
  fold_left (fun acc k => finish k Fulfilled acc) (map park calls) st
  = emits (map (hands (options st)) calls) st.
Proof.
  revert st. induction calls as [|[[[call ch] payload] now] calls IH];
    intros st; cbn [map fold_left].
  - by rewrite emits_nil.
  - rewrite IH. cbn [finish park]. unfold publish_produce.
    by rewrite emits_emits.
Qed.

(** The parked [publish] calls, once the producer is there: the log
    lines of all of them, then their calls of [produce]. *)
Lemma send_all calls st :
  resume_all (map park calls) Fulfilled st
  = emits (map (announces (options st)) calls
           ++ map (hands (options st)) calls) st.
Proof.
  unfold resume_all. by rewrite announce_all, hand_all, emits_emits.
Qed.

Lemma produced_by_announces o calls :
  produced_by (map (announces o) calls) = [].
Proof. induction calls as [|[[[call ch] payload] now] calls IH]; done. Qed.

Lemma produced_by_hands o calls :
  produced_by (map (hands o) calls) = map (sent o) calls.
Proof.
  induction calls as [|[[[call ch] payload] now] calls IH]; [done|].
  cbn. by rewrite IH.
Qed.

Lemma count_new_announces s o calls :
  count_new s (map (announces o) calls) = 0%nat.
Proof. induction calls as [|[[[c1 c2] c3] c4] l IHl]; [done|exact IHl]. Qed.

Lemma count_new_hands s o calls : count_new s (map (hands o) calls) = 0%nat.
Proof. induction calls as [|[[[c1 c2] c3] c4] l IHl]; [done|exact IHl]. Qed.

Lemma count_new_sends s o calls :
  count_new s (map (announces o) calls ++ map (hands o) calls) = 0%nat.
Proof. by rewrite count_new_app, count_new_announces, count_new_hands. Qed.

(** X10.  However many [publish] calls are made before the producer is
    ready, one producer is created, and when its [ready] event brings
    metadata with the topic every one of the calls hands its record to
    [produce], in the order the calls were made. *)
Theorem waiting_publishes_are_sent_in_order
    (o : IKafkaOptions) (calls : list publication) (topics : list string) :
  includes topics (topic o) = true ->
  let st := run (map publish_event calls ++ [Ready ProducerSide topics])
              (init o) in
  produced_by (trace st) = map (sent o) calls
  /\ (created ProducerSide st <= 1)%nat
  /\ waiting st ProducerSide = [].
Proof.
  intros Hinc st. unfold st. rewrite run_app.
  destruct calls as [|[[[call ch] payload] now] calls].
  - cbn. split; [done|]. split; [lia|done].
  - cbn [map]. change (run (?e :: ?l) (init o)) with (run l (step (init o) e)).
    set (st1 := step (init o) _).
    assert (H1 : producer st1 = Some Pending
                 /\ waiting st1 ProducerSide = [KPublish call ch payload now]
                 /\ trace st1
                    = [New ProducerSide "" (brokerList o);
                       Log LInfo "Connecting producer ..." "";
                       Connect ProducerSide]
                 /\ options st1 = o) by done.
    destruct H1 as (Hp1 & Hw1 & Ht1 & Ho1).
    destruct (publishes_wait calls st1 Hp1) as (Hp2 & Hw2 & Ht2 & Ho2).
    cbn zeta in Hp2, Hw2, Ht2, Ho2.
    set (st2 := run (map publish_event calls) st1) in *.
    cbn [run fold_left step handle]. rewrite Hp2. unfold on_ready.
    rewrite Ho2, Ho1, Hinc. unfold settle_handle. cbn [handle emits producer].
    rewrite Hp2. cbn [waiting emits]. rewrite Hw2, Hw1.
    change ([KPublish call ch payload now] ++ map park calls)
      with (map park ((call, ch, payload, now) :: calls)).
    set (st3 := set_waiting _ _ _).
    rewrite (send_all ((call, ch, payload, now) :: calls) st3).
    assert (Ho3 : options st3 = o) by (unfold st3; cbn; congruence).
    assert (Ht3 : trace st3
              = [New ProducerSide "" (brokerList o);
                 Log LInfo "Connecting producer ..." "";
                 Connect ProducerSide;
                 Log LInfo "Connected, found topics: %s"
                   (String.concat "," topics)]).
    { unfold st3. cbn. by rewrite Ht2, Ht1. }
    rewrite Ho3. cbn [trace emits waiting]. rewrite Ht3. split; [|split].
    + by rewrite !produced_by_app, produced_by_announces, produced_by_hands.
    + unfold created. cbn [trace emits]. rewrite Ht3, count_new_app.
      rewrite count_new_sends. cbn. lia.
    + by unfold st3.
Qed.

(** ** [close] without a connection *)

Lemma close_event_stuck s e c :
  awaited c s = false -> attempted c s = false ->
  disconnected c s = Pending -> is_fulfilled (all c) = false ->
  let c' := on_close_event c e in
  awaited c' s = false /\ attempted c' s = false
  /\ disconnected c' s = Pending /\ is_fulfilled (all c') = false.
Proof.
  intros Hw Ha Hd Hall. destruct e as [s' p|s' err]; cbn [on_close_event].
  - unfold on_settles.
    destruct (awaited c s' && negb (is_pending p)) eqn:Hg; [|done].
    apply andb_true_iff in Hg as [Hw' _].
    assert (Hne : side_eqb s' s = false).
    { destruct s, s'; try done; congruence. }
    cbn [awaited attempted disconnected all]. by rewrite Hne.
  - unfold on_disconnect.
    destruct (attempted c s' && is_pending (disconnected c s')) eqn:Hg; [|done].
    apply andb_true_iff in Hg as [Ha' _].
    assert (Hne : side_eqb s' s = false).
    { destruct s, s'; try done; congruence. }
    cbn [awaited attempted disconnected all]. rewrite Hne, Hd.
    split; [done|]. split; [done|]. split; [done|].
    destruct (all c); try done. destruct err; [done|].
    destruct s; cbn; rewrite ?Hne, ?Hd, ?andb_false_r; done.
Qed.

(** X11.  [close] is fulfilled only if both connections exist: when the
    producer or the consumer was never asked for, or its creation was
    rejected, [close] does not call [disconnect] on that side, neither
    at once nor later, and its promise is never fulfilled, whatever
    happens afterwards and whatever the disconnect of the other side
    reports. *)
Theorem close_needs_both_connections
    (s : side) (st : KafkaPubSub) (evs : list close_event) :
  unavailable (handle s st) = true ->
  is_fulfilled (all (close_after evs st)) = false
  /\ attempted (close_after evs st) s = false
  /\ forall es, trace (fst (close st)) = trace st ++ es ->
                ~ In (Disconnect s) es.
Proof.
  intros Hun.
  assert (Hatt : attempts (handle s st) = false).
  { destruct (handle s st) as [[]|]; done. }
  assert (Hinv : forall c,
             awaited c s = false -> attempted c s = false ->
             disconnected c s = Pending -> is_fulfilled (all c) = false ->
             is_fulfilled (all (fold_left on_close_event evs c)) = false
             /\ attempted (fold_left on_close_event evs c) s = false).
  { induction evs as [|e evs IH]; intros c Hw Ha Hd Hall; [done|].
    cbn [fold_left].
    destruct (close_event_stuck s e c Hw Ha Hd Hall) as (? & ? & ? & ?).
    by apply IH. }
  destruct (Hinv (snd (close st))) as [H1 H2]; try done.
  { cbn. by destruct (handle s st) as [[]|]. }
  split; [exact H1|]. split; [exact H2|].
  intros es Heq. unfold close in Heq. cbn [fst trace emits] in Heq.
  apply app_inv_head in Heq. subst es.
  destruct s; rewrite Hatt;
    [destruct (attempts (handle ConsumerSide st))
    |destruct (attempts (handle ProducerSide st))];
    cbn; intuition discriminate.
Qed.

End Properties.

(* ===================================================================== *)
(** * Part IX.  The engine on the sample platform                         *)
(* ===================================================================== *)

(** On the sample platform a value whose objects have pairwise distinct
    property names comes back from [deserialiseMessage] as it went into
    [serialiseMessage]. *)
Lemma sample_survives (v : json Z) :
  wf v = true -> survives (node := sample) v.
Proof.
  intros Hwf. unfold survives, deserialiseMessage, serialiseMessage.
  cbn [js_toString JSON_parse JSON_stringify Buffer_from Buffer_toString sample].
  by rewrite String.string_of_list_byte_of_string, parse_stringify.
Qed.

(** ** From [publish] to the listener *)




(** ** Connections *)

(** C2 at its failing input: a second [subscribe] while the consumer is
    connecting.  The consumer is created once, but the later
    [createConsumer] does not return the promise it has memoized: it
    returns a promise that is already resolved, and the second
    [subscribe] resolves while the consumer is still pending.
    [createProducer] does return the memoized promise: a second
    [publish] waits. *)
Lemma later_createConsumer_does_not_wait :
  let st := run [CallSubscribe 1 "a" quiet "u"] (init envelope_options) in
  let st' := run [CallPublish 1 "a" order 0] (init envelope_options) in
  consumer st = Some Pending
  /\ createConsumer "v" st = (st, None)
  /\ consumer (run [CallSubscribe 2 "b" quiet "v"] st) = Some Pending
  /\ settled (run [CallSubscribe 2 "b" quiet "v"] st) = [(2, Resolved 1)]
  /\ created ConsumerSide (run [CallSubscribe 2 "b" quiet "v"] st) = 1%nat
  /\ producer st' = Some Pending
  /\ createProducer st' = (st', Some ProducerSide)
  /\ settled (run [CallPublish 2 "b" order 1] st') = [].
Proof. repeat split; reflexivity. Qed.

(** C8 at its failing input.  The topic is missing from the metadata: the
    first [subscribe] is rejected and the consumer is disconnected, and
    the second [subscribe] resolves with an id, its listener registered
    on a consumer that does not exist. *)
Lemma second_subscribe_resolves_without_topic :
  let st := run [CallSubscribe 1 "a" quiet "u";
                 Ready ConsumerSide ["other"];
                 CallSubscribe 2 "a" quiet "u"] (init envelope_options) in
  includes ["other"] (topic envelope_options) = false
  /\ consumer st = Some (Rejected topic_not_found)
  /\ In (Disconnect ConsumerSide) (trace st)
  /\ settled st = [(1, RejectedWith topic_not_found); (2, Resolved 1)]
  /\ map (fun f => cb_name (fn_cb f)) (listeners "a" st) = ["quiet"].
Proof.
  intros st. split; [reflexivity|]. split; [reflexivity|].
  split; [|split; reflexivity].
  assert (Ht : exists a b, trace st = a ++ Disconnect ConsumerSide :: b)
    by (by eexists (firstn 7 (trace st)), _).
  destruct Ht as (a & b & ->). apply in_elt.
Qed.

(** ** The data handler *)

Lemma decode_failure_witness :
  let st := subscribe_resume 1 "events" quiet (init envelope_options) in
  undecodable (options st) (raw "oops" None) = true
  /\ on_data (raw "oops" None) st
     = (emits [Log LDebug "Received %s" "oops"] st, Throw SyntaxError).
Proof.
  intros st. split; [reflexivity|].
  apply (decode_failure st (raw "oops" None)). reflexivity.
Defined.

(** C3, the claim as stated, fails: in envelope mode a value that is not
    JSON text makes the data handler raise. *)
Lemma C3_malformed_value_counterexample :
  undecodable envelope_options (raw "{" None) = true
  /\ snd (on_data (raw "{" None) (init envelope_options)) = Throw SyntaxError.
Proof. split; reflexivity. Qed.


(** C5 at its failing input, the value [null] in envelope mode.  It
    parses, it has no [channel] property, and reading [channel] off it
    raises a [TypeError]: the message is not emitted on the topic name,
    whose listener is not called. *)
Lemma null_value_is_not_emitted :
  let st := subscribe_resume 1 "events" quiet (init envelope_options) in
  parse (decode (bytes "null")) = Some JNull
  /\ field "channel" null = None
  /\ on_data (raw "null" None) st
     = (emits [Log LDebug "Received %s" "null"] st, Throw TypeError)
  /\ calls_of "quiet" (trace (fst (on_data (raw "null" None) st))) = [].
Proof. repeat split; reflexivity. Qed.

Lemma header_mode_delivery_witness :
  let st := subscribe_resume 1 "a" quiet (init header_options) in
  let m := raw "42" (Some [[("channel", bytes "a")]]) in
  useHeaders (options st) = true
  /\ on_data m st
     = (emits [Log LDebug "Received %s" "42"; Called "quiet" (VJson (num 42))]
          st,
        Normal tt).
Proof.
  intros st m. split; [reflexivity|].
  exact (header_mode_delivery st m (bytes "42") [[("channel", bytes "a")]]
           [("channel", bytes "a")] (bytes "a")
           eq_refl eq_refl eq_refl eq_refl eq_refl).
Defined.

(** C6, the claim as stated, fails: the listener of a header-mode message
    is called with the parsed value, not with the bytes. *)
Lemma C6_parsed_value_counterexample :
  let st := subscribe_resume 1 "a" quiet (init header_options) in
  let m := raw "42" (Some [[("channel", bytes "a")]]) in
  calls_of "quiet" (trace (fst (on_data m st))) = [VJson (num 42)]
  /\ calls_of "quiet" (trace (fst (on_data m st))) <> [VBuffer (bytes "42")].
Proof.
  intros st m.
  assert (H : calls_of "quiet" (trace (fst (on_data m st))) = [VJson (num 42)])
    by reflexivity.
  split; [exact H|]. by rewrite H.
Qed.

Lemma header_mode_parses_on_delivery_witness :
  let m := raw "oops" (Some [[("channel", bytes "a")]]) in
  let st := subscribe_resume 1 "a" quiet (init header_options) in
  parse (decode (bytes "oops")) = None
  /\ on_data m st
     = (emits [Log LDebug "Received %s" "oops"] st, Throw SyntaxError).
Proof.
  intros m st. split; [reflexivity|].
  exact (header_mode_parses_on_delivery st m (bytes "oops")
           [[("channel", bytes "a")]] [("channel", bytes "a")]
           (bytes "a") eq_refl eq_refl eq_refl eq_refl eq_refl eq_refl).
Defined.

Lemma headerless_message_witness :
  let sent := obj [("channel", text "a"); ("payload", num 42)] in
  let m := raw (stringify sent) None in
  let st := subscribe_resume 1 "a" quiet (init header_options) in
  useHeaders (options st) = true
  /\ on_data m st
     = (emits [Log LDebug "Received %s" (stringify sent);
               Called "quiet" (VJson (num 42))] st,
        Normal tt).
Proof.
  intros sent m st. split; [reflexivity|].
  exact (proj1 (proj2
    (headerless_message_takes_envelope_branch st m (bytes (stringify sent))
       eq_refl eq_refl eq_refl))).
Defined.

(** C10, the claim as stated, fails.  In header mode, a message without
    headers whose value has the [channel] property [""] is not routed by
    that property: the listener of the empty channel is not called, and
    the message goes to the listeners of the topic name (whose wrapper,
    handed an object where it expects text, raises). *)
Lemma C10_falsy_channel_counterexample :
  let sent := obj [("channel", text ""); ("payload", num 42)] in
  let m := raw (stringify sent) None in
  let st := subscribe_resume 1 "" quiet (init header_options) in
  let st' := subscribe_resume 1 "events" quiet (init header_options) in
  parse (decode (bytes (stringify sent))) = Some sent
  /\ field "channel" sent = Some (text "")
  /\ on_data m st = (emits [Log LDebug "Received %s" (stringify sent)] st,
                     Normal tt)
  /\ calls_of "quiet" (trace (fst (on_data m st))) = []
  /\ snd (on_data m st') = Throw SyntaxError.
Proof. repeat split; reflexivity. Qed.

(** ** Dispatch *)

Lemma dispatch_until_first_throw_witness :
  let st := subscribe_resume 2 "a" faulty
              (subscribe_resume 1 "a" quiet (init envelope_options)) in
  ee st !! "a" = Some [{| fn_id := 1; fn_cb := quiet |};
                       {| fn_id := 2; fn_cb := faulty |}]
  /\ emit "a" (VJson order) st
     = (emits [Called "quiet" (VJson order); Called "faulty" (VJson order)] st,
        Throw (UserThrown "boom")).
Proof.
  intros st. split; [reflexivity|].
  exact (proj1 (dispatch_until_first_throw st "a" (VJson order) _ eq_refl)).
Defined.

(** C7, the claim as stated, fails: a listener that raises keeps the
    listeners registered after it from being called. *)
Lemma C7_throwing_listener_counterexample :
  let st := subscribe_resume 2 "a" quiet
              (subscribe_resume 1 "a" faulty (init envelope_options)) in
  map (fun f => cb_name (fn_cb f)) (listeners "a" st) = ["faulty"; "quiet"]
  /\ calls_of "quiet" (trace (fst (emit "a" (VJson order) st))) = []
  /\ snd (emit "a" (VJson order) st) = Throw (UserThrown "boom").
Proof. repeat split; reflexivity. Qed.

(** ** [unsubscribe] and the registry *)

Lemma unsubscribe_unknown_witness :
  let st := subscribe_resume 1 "a" quiet (init envelope_options) in
  subscriptions st !! 7 = None
  /\ unsubscribe 7 st = (st, Throw TypeError).
Proof.
  intros st. split; [reflexivity|].
  apply (unsubscribe_unknown st 7). reflexivity.
Defined.

Lemma registry_agrees_with_emitter_witness :
  let es := [CallSubscribe 1 "a" quiet "u"; Ready ConsumerSide ["events"];
             CallSubscribe 2 "b" faulty "u"; CallUnsubscribe 1;
             Data (raw "null" None)] in
  forallb ordinary es = true
  /\ (subIdCounter (run es (init envelope_options)) <=? max_safe_count) = true
  /\ registry_ok (run es (init envelope_options)).
Proof.
  intros es. split; [reflexivity|]. split; [reflexivity|].
  apply (registry_agrees_with_emitter envelope_options es); [reflexivity|].
  apply Z.leb_le. reflexivity.
Defined.

Lemma subscription_ids_count_up_witness :
  let es := [CallSubscribe 1 "a" quiet "u"; Ready ConsumerSide ["events"];
             CallSubscribe 2 "b" faulty "u"; CallUnsubscribe 1;
             CallSubscribe 3 "a" quiet "u"] in
  forallb ordinary es = true
  /\ (subIdCounter (run es (init envelope_options)) <=? max_safe_count) = true
  /\ resolved_ids (settled (run es (init envelope_options))) = [1; 2; 3].
Proof.
  intros es. split; [reflexivity|]. split; [reflexivity|].
  rewrite (subscription_ids_count_up envelope_options es);
    [reflexivity|reflexivity|].
  apply Z.leb_le. reflexivity.
Defined.

Lemma subscribe_unsubscribe_roundtrip_witness :
  let es := [CallSubscribe 1 "a" quiet "u"; Ready ConsumerSide ["events"]] in
  let st := run es (init envelope_options) in
  let st1 := subscribe_resume 2 "a" faulty st in
  forallb ordinary es = true
  /\ (subIdCounter st <? max_safe_count) = true
  /\ map (fun g => cb_name (fn_cb g)) (listeners "a" st1) = ["quiet"; "faulty"]
  /\ ee (fst (unsubscribe 2 st1)) = ee st.
Proof.
  intros es st st1. split; [reflexivity|]. split; [reflexivity|].
  split; [reflexivity|].
  refine (proj1 (proj2
    (subscribe_unsubscribe_roundtrip envelope_options es 2 "a" faulty
       eq_refl _))).
  apply Z.ltb_lt. reflexivity.
Defined.

Lemma unsubscribe_removes_its_listener_witness :
  let es := [CallSubscribe 1 "a" quiet "u"; Ready ConsumerSide ["events"];
             CallSubscribe 2 "a" faulty "u"] in
  let st := run es (init envelope_options) in
  forallb ordinary es = true
  /\ (subIdCounter st <=? max_safe_count) = true
  /\ subscriptions st !! 1 = Some ("a", {| fn_id := 1; fn_cb := quiet |})
  /\ map (fun g => cb_name (fn_cb g)) (listeners "a" st) = ["quiet"; "faulty"]
  /\ existsb (same_fn {| fn_id := 1; fn_cb := quiet |})
       (listeners "a" (fst (unsubscribe 1 st))) = false.
Proof.
  intros es st. split; [reflexivity|]. split; [reflexivity|].
  split; [reflexivity|]. split; [reflexivity|].
  refine (proj1 (proj2 (proj2 (proj2
    (unsubscribe_removes_its_listener envelope_options es 1 "a"
       {| fn_id := 1; fn_cb := quiet |} eq_refl _ eq_refl))))).
  apply Z.leb_le. reflexivity.
Defined.

(** ** Connections over time *)

Lemma connection_on_demand_witness :
  let es := [CallSubscribe 1 "a" quiet "u"; Ready ConsumerSide ["events"];
             Data (raw "null" None); CallUnsubscribe 1] in
  forallb (fun e => negb (creates ProducerSide e)) es = true
  /\ started ProducerSide (run es (init envelope_options)) = false
  /\ created ProducerSide (run es (init envelope_options)) = 0%nat.
Proof.
  intros es. split; [reflexivity|].
  exact (connection_on_demand ProducerSide (init envelope_options) es eq_refl).
Defined.

Lemma settled_connection_is_final_witness :
  let st := run [CallPublish 1 "a" order 0; Ready ProducerSide ["other"]]
              (init envelope_options) in
  let es := [CallPublish 2 "a" order 1; Ready ProducerSide ["events"];
             CallPublish 3 "a" order 2] in
  handle ProducerSide st = Some (Rejected topic_not_found)
  /\ handle ProducerSide (run es st) = Some (Rejected topic_not_found).
Proof.
  intros st es. split; [reflexivity|].
  exact (settled_connection_is_final ProducerSide st es
           (Rejected topic_not_found) eq_refl eq_refl).
Defined.

Lemma missing_topic_rejects_waiting_calls_witness :
  let st := run [CallPublish 1 "a" order 0; CallPublish 2 "b" order 1]
              (init envelope_options) in
  handle ProducerSide st = Some Pending
  /\ settled (on_ready ProducerSide ["other"] st)
     = [(1, RejectedWith topic_not_found); (2, RejectedWith topic_not_found)].
Proof.
  intros st. split; [reflexivity|].
  exact (proj1 (proj2 (proj2
    (missing_topic_rejects_waiting_calls ProducerSide ["other"] st
       eq_refl eq_refl)))).
Defined.

Lemma waiting_publishes_are_sent_in_order_witness :
  let calls : list publication :=
    [(1, "a", order, 10); (2, "b", JNull, 11); (3, "a", num 7, 12)] in
  includes ["events"; "logs"] (topic envelope_options) = true
  /\ map fst (produced_by
       (trace (run (map publish_event calls
                    ++ [Ready ProducerSide ["events"; "logs"]])
                 (init envelope_options))))
     = [1; 2; 3].
Proof.
  intros calls. split; [reflexivity|].
  rewrite (proj1 (waiting_publishes_are_sent_in_order envelope_options calls
                    ["events"; "logs"] eq_refl)).
  reflexivity.
Defined.

(** ** [close] *)

Lemma close_rejects_with_first_failure_witness :
  let st := set_handle ConsumerSide Pending
              (set_handle ProducerSide Fulfilled (init envelope_options)) in
  let evs := [Reports ProducerSide None; Settles ConsumerSide Fulfilled] in
  let failed := Reports ConsumerSide (Some (KafkaError "down")) in
  orderly (snd (close st)) (evs ++ [failed]) = true
  /\ trace (fst (close st)) = [Disconnect ProducerSide]
  /\ all (close_after evs st) = Pending
  /\ attempted (close_after evs st) ConsumerSide = true
  /\ all (close_after (evs ++ [failed]) st) = Rejected (KafkaError "down")
  /\ all (close_after (evs ++ [Reports ConsumerSide None]) st) = Fulfilled.
Proof.
  intros st evs failed. split; [reflexivity|].
  split; [exact (proj2 (proj2
                   (close_rejects_with_first_failure st evs eq_refl)))|].
  split; [exact (proj1 (close_rejects_with_first_failure st evs eq_refl))|].
  split; [exact (proj1 (proj2
                   (close_rejects_with_first_failure st evs eq_refl))
                   ConsumerSide)|].
  split; [exact (proj1 (close_rejects_with_first_failure st (evs ++ [failed])
                          eq_refl))|].
  exact (proj1 (close_rejects_with_first_failure st
                  (evs ++ [Reports ConsumerSide None]) eq_refl)).
Defined.

(** C4, the claim as stated, fails: with both disconnects failing,
    [close] is rejected as soon as the first failure is reported, while
    the other disconnect is still under way, and the second error never
    reaches the result. *)
Lemma C4_first_failure_counterexample :
  let st := connected envelope_options in
  let p := Reports ProducerSide (Some (KafkaError "producer")) in
  let c := Reports ConsumerSide (Some (KafkaError "consumer")) in
  all (close_after [p] st) = Rejected (KafkaError "producer")
  /\ disconnected (close_after [p] st) ConsumerSide = Pending
  /\ all (close_after [p; c] st) = Rejected (KafkaError "producer")
  /\ all (close_after [p; c] st)
     = all (close_after [p; Reports ConsumerSide (Some (KafkaError "other"))]
              st).
Proof. repeat split; reflexivity. Qed.

Lemma close_needs_both_connections_witness :
  let st := set_handle ProducerSide Fulfilled (init envelope_options) in
  unavailable (handle ConsumerSide st) = true
  /\ is_fulfilled (all (close_after [Reports ProducerSide None] st)) = false.
Proof.
  intros st. split; [reflexivity|].
  exact (proj1 (close_needs_both_connections ConsumerSide st
                  [Reports ProducerSide None] eq_refl)).
Defined.
